(** * clibind: struct tags to command-line flags and back

    A shallow embedding of the Go package [clibind] (files [flags.go],
    [bind.go] and the helper file holding [unreferenceType],
    [parseNamesWithOptions] and friends), followed by the properties of
    its two entry points, [FlagsFromStruct] and [Bind].

    Go strings are byte strings ([string] of [ascii]); machine integers
    are [Z] with the wrap-around written out; a [reflect.Type] is a
    finite tree ([reflect.rtype]), a [reflect.Value] a type together with
    its contents.  A Go function that can return an error or panic
    returns an [outcome]. *)

From Stdlib Require Import ZArith List String Ascii Bool Lia.
Import ListNotations.

Set Warnings "-register-all".

Local Open Scope list_scope.
Local Open Scope string_scope.

(* ================================================================= *)
(** ** Errors and outcomes *)

(** Go [error] values as the code builds them: [errors.New], the
    [*strconv.NumError] of the number parsers, the errors returned by the
    [time] and [uuid] parsers, and [fmt.Errorf] with a trailing [%w],
    kept as the formatted text before the wrapped error and that error. *)
Inductive error : Type :=
| errorString (text : string)
| NumError (Func Num : string) (Err : error)
| libError (pkg : string) (input : string)
| wrapError (msg : string) (err : error).

Definition ErrSyntax : error := errorString "invalid syntax".
Definition ErrRange : error := errorString "value out of range".

(** What a call does: return normally, return a non-nil error, or
    panic (the run-time panics of package [reflect]). *)
Inductive outcome (A : Type) : Type :=
| Ok (a : A)
| Err (e : error)
| Panic (msg : string).
Arguments Ok {A} a.
Arguments Err {A} e.
Arguments Panic {A} msg.

Definition bind {A B} (m : outcome A) (k : A -> outcome B) : outcome B :=
  match m with
  | Ok a => k a
  | Err e => Err e
  | Panic s => Panic s
  end.

(** [fmt.Errorf(msg + "%w", err)] around a failing call. *)
Definition wrapping {A} (msg : string) (m : outcome A) : outcome A :=
  match m with
  | Err e => Err (wrapError msg e)
  | other => other
  end.

Notation "x <- m ;; k" := (bind m (fun x => k))
  (at level 61, m at next level, right associativity).

(* ================================================================= *)
(** ** Package [strings] (the functions the code calls) *)

Module strings.

Definition inRange (lo hi c : ascii) : bool :=
  (N_of_ascii lo <=? N_of_ascii c)%N && (N_of_ascii c <=? N_of_ascii hi)%N.

(** The ASCII white space of [unicode.IsSpace]; the code points above
    0x7F it also accepts span several bytes and are not modelled. *)
Definition isSpace (c : ascii) : bool :=
  inRange "009" "013" c || Ascii.eqb c " ".

Definition lower (c : ascii) : ascii :=
  if inRange "A" "Z" c then ascii_of_N (N_of_ascii c + 32) else c.

(** [strings.ToLower], on ASCII letters. *)
Fixpoint ToLower (s : string) : string :=
  match s with
  | EmptyString => EmptyString
  | String c r => String (lower c) (ToLower r)
  end.

Fixpoint trimLeft (s : string) : string :=
  match s with
  | EmptyString => EmptyString
  | String c r => if isSpace c then trimLeft r else s
  end.

Fixpoint trimRight (s : string) : string :=
  match s with
  | EmptyString => EmptyString
  | String c r =>
      match trimRight r with
      | EmptyString => if isSpace c then EmptyString else String c EmptyString
      | r' => String c r'
      end
  end.

Definition TrimSpace (s : string) : string := trimRight (trimLeft s).

(** [strings.Split(s, sep)] for a one-byte separator: always at least
    one part. *)
Fixpoint Split (s : string) (sep : ascii) : list string :=
  match s with
  | EmptyString => [EmptyString]
  | String c r =>
      if Ascii.eqb c sep then EmptyString :: Split r sep
      else match Split r sep with
           | [] => [String c EmptyString]
           | p :: ps => String c p :: ps
           end
  end.

End strings.

(* ================================================================= *)
(** ** Package [strconv] *)

Module strconv.

Local Open Scope Z_scope.

Definition syntaxError (fn str : string) : error := NumError fn str ErrSyntax.
Definition rangeError (fn str : string) : error := NumError fn str ErrRange.

Definition ParseBool (str : string) : bool * option error :=
  if existsb (String.eqb str) ["1"; "t"; "T"; "TRUE"; "true"; "True"]%string
  then (true, None)
  else if existsb (String.eqb str) ["0"; "f"; "F"; "FALSE"; "false"; "False"]%string
  then (false, None)
  else (false, Some (syntaxError "ParseBool" str)).

Definition maxUint64 : Z := 2 ^ 64 - 1.

(** The digit loop of [ParseUint] for base 10 and bit size 64; [n] is
    the [uint64] accumulated so far. *)
Fixpoint parseUintLoop (s0 s : string) (n : Z) : Z * option error :=
  match s with
  | EmptyString => (n, None)
  | String c r =>
      let cutoff := maxUint64 / 10 + 1 in
      let maxVal := maxUint64 in
      let digit :=
        if strings.inRange "0" "9" c
        then Some (Z.of_N (N_of_ascii c) - 48)
        else if strings.inRange "a" "z" (strings.lower c)
        then Some (Z.of_N (N_of_ascii (strings.lower c)) - 97 + 10)
        else None in
      match digit with
      | None => (0, Some (syntaxError "ParseUint" s0))
      | Some d =>
          if 10 <=? d then (0, Some (syntaxError "ParseUint" s0))
          else if cutoff <=? n then (maxVal, Some (rangeError "ParseUint" s0))
          else
            let n10 := (n * 10) mod 2 ^ 64 in
            let n1 := (n10 + d) mod 2 ^ 64 in
            if (n1 <? n10) || (maxVal <? n1)
            then (maxVal, Some (rangeError "ParseUint" s0))
            else parseUintLoop s0 r n1
      end
  end.

(** [strconv.ParseUint(s, 10, 64)]. *)
Definition ParseUint (s : string) : Z * option error :=
  match s with
  | EmptyString => (0, Some (syntaxError "ParseUint" s))
  | _ => parseUintLoop s s 0
  end.

(** [strconv.ParseInt(s, 10, 64)]: the sign is picked off, the rest
    goes through [ParseUint]; a syntax error gives 0, a value out of
    range gives the nearest end of the [int64] range. *)
Definition ParseInt (s : string) : Z * option error :=
  match s with
  | EmptyString => (0, Some (syntaxError "ParseInt" s))
  | String c r =>
      let neg := Ascii.eqb c "-" in
      let digits := if Ascii.eqb c "+" || Ascii.eqb c "-" then r else s in
      let cutoff := 2 ^ 63 in
      match ParseUint digits with
      | (un, Some (NumError _ _ (errorString "invalid syntax"))) =>
          (0, Some (syntaxError "ParseInt" s))
      | (un, _) =>
          if negb neg && (cutoff <=? un) then (cutoff - 1, Some (rangeError "ParseInt" s))
          else if neg && (cutoff <? un) then (- cutoff, Some (rangeError "ParseInt" s))
          else (if neg then - un else un, None)
      end
  end.

End strconv.

(* ================================================================= *)
(** ** Package [reflect]: kinds, types, values *)

Module reflect.

Inductive Kind : Type :=
| Invalid | Bool
| Int | Int8 | Int16 | Int32 | Int64
| Uint | Uint8 | Uint16 | Uint32 | Uint64 | Uintptr
| Float32 | Float64 | Complex64 | Complex128
| Array | Chan | Func | Interface | Map
| Pointer | Slice | String | Struct | UnsafePointer.

Definition Kind_eqb (a b : Kind) : bool :=
  match a, b with
  | Invalid, Invalid | Bool, Bool | Int, Int | Int8, Int8 | Int16, Int16
  | Int32, Int32 | Int64, Int64 | Uint, Uint | Uint8, Uint8 | Uint16, Uint16
  | Uint32, Uint32 | Uint64, Uint64 | Uintptr, Uintptr | Float32, Float32
  | Float64, Float64 | Complex64, Complex64 | Complex128, Complex128
  | Array, Array | Chan, Chan | Func, Func | Interface, Interface | Map, Map
  | Pointer, Pointer | Slice, Slice | String, String | Struct, Struct
  | UnsafePointer, UnsafePointer => true
  | _, _ => false
  end.

(** A struct tag, already split into its [key:"value"] pairs. *)
Definition StructTag : Type := list (string * string).

(** Types.  [Plain k] is any type of kind [k] that is none of the
    others: [bool], the integer and float types, [string], arrays, maps
    and so on, which the code tells apart by kind only.  Pointer, slice
    and struct types have their own constructors, and [Plain] of one of
    these three kinds stands for no type ([kind] gives [Invalid]).  [Duration], [Time] and [UUID]
    are [time.Duration], [time.Time] and [uuid.UUID], which the code
    compares with [==]. *)
Inductive rtype : Type :=
| Plain (k : Kind)
| Duration
| Time
| UUID
| PointerTo (elem : rtype)
| SliceOf (elem : rtype)
| StructOf (fields : list StructField)
with StructField : Type :=
| mkStructField (Name PkgPath : string) (Typ : rtype) (Tag : StructTag)
                (Anonymous : bool).

Definition Name (sf : StructField) := let 'mkStructField n _ _ _ _ := sf in n.
Definition PkgPath (sf : StructField) := let 'mkStructField _ p _ _ _ := sf in p.
Definition Typ (sf : StructField) := let 'mkStructField _ _ t _ _ := sf in t.
Definition Tag (sf : StructField) := let 'mkStructField _ _ _ g _ := sf in g.
Definition Anonymous (sf : StructField) := let 'mkStructField _ _ _ _ a := sf in a.

(** [StructTag.Get]: the value of the first pair with that key, the
    empty string when there is none. *)
Fixpoint Get (tag : StructTag) (key : string) : string :=
  match tag with
  | [] => EmptyString
  | (k, v) :: rest => if String.eqb k key then v else Get rest key
  end.

Fixpoint tag_eqb (g h : StructTag) : bool :=
  match g, h with
  | [], [] => true
  | (k, v) :: g', (k', v') :: h' =>
      String.eqb k k' && String.eqb v v' && tag_eqb g' h'
  | _, _ => false
  end.

Definition kind (t : rtype) : Kind :=
  match t with
  | Plain (Pointer | Slice | Struct) => Invalid
  | Plain k => k
  | Duration => Int64
  | Time => Struct
  | UUID => Array
  | PointerTo _ => Pointer
  | SliceOf _ => Slice
  | StructOf _ => Struct
  end.

(** Type identity, structural. *)
Fixpoint rtype_eqb (a b : rtype) : bool :=
  match a, b with
  | Plain k, Plain k' => Kind_eqb k k'
  | Duration, Duration | Time, Time | UUID, UUID => true
  | PointerTo e, PointerTo e' => rtype_eqb e e'
  | SliceOf e, SliceOf e' => rtype_eqb e e'
  | StructOf fs, StructOf gs =>
      (fix fields_eqb (fs gs : list StructField) : bool :=
         match fs, gs with
         | [], [] => true
         | mkStructField n p t g a :: fs', mkStructField n' p' t' g' a' :: gs' =>
             String.eqb n n' && String.eqb p p' && rtype_eqb t t'
             && tag_eqb g g'
             && Bool.eqb a a' && fields_eqb fs' gs'
         | _, _ => false
         end) fs gs
  | _, _ => false
  end.

(** Contents of a value.  Integers of every width are a [Z] in the
    range of the type; a float is its IEEE-754 bit pattern; an instant
    and an identifier are a number, 0 for [time.Time{}] and for
    [uuid.Nil]; a pointer holds what it points to; a slice is [None]
    when nil. *)
Inductive data : Type :=
| VBool (b : bool)
| VInt (n : Z)
| VUint (n : Z)
| VFloat (bits : Z)
| VString (s : string)
| VTime (t : Z)
| VUUID (u : Z)
| VPtr (target : option data)
| VSlice (elems : option (list data))
| VStruct (fields : list data)
| VOpaque.

(** A [reflect.Value]: a type and contents of that type. *)
Record Value : Type := mkValue { typ : rtype; val : data }.

(** The zero contents of a type, [reflect.Zero]. *)
Fixpoint zero (t : rtype) : data :=
  match t with
  | Plain Bool => VBool false
  | Plain (Int | Int8 | Int16 | Int32 | Int64) => VInt 0
  | Plain (Uint | Uint8 | Uint16 | Uint32 | Uint64 | Uintptr) => VUint 0
  | Plain (Float32 | Float64) => VFloat 0
  | Plain String => VString EmptyString
  | Plain _ => VOpaque
  | Duration => VInt 0
  | Time => VTime 0
  | UUID => VUUID 0
  | PointerTo _ => VPtr None
  | SliceOf _ => VSlice None
  | StructOf fs => VStruct (map (fun sf => zero (Typ sf)) fs)
  end.

(** [reflect.New(t).Elem()]: a fresh, settable zero value. *)
Definition NewElem (t : rtype) : Value := mkValue t (zero t).

(** Number of bits of an integer kind ([int], [uint] and [uintptr]
    are 64 bits wide). *)
Definition bits (k : Kind) : Z :=
  match k with
  | Int8 | Uint8 => 8
  | Int16 | Uint16 => 16
  | Int32 | Uint32 => 32
  | _ => 64
  end.

(** Conversion of an [int64] to a signed type of [w] bits and of a
    [uint64] to an unsigned one: the low [w] bits are kept. *)
Definition wrapSigned (w x : Z) : Z :=
  ((x + 2 ^ (w - 1)) mod 2 ^ w - 2 ^ (w - 1))%Z.
Definition wrapUnsigned (w x : Z) : Z := (x mod 2 ^ w)%Z.

(** [Type.Elem] on the types that carry their element type here. *)
Definition Elem (t : rtype) : outcome rtype :=
  match t with
  | PointerTo e | SliceOf e => Ok e
  | _ => Panic "reflect: Elem of invalid type"
  end.

(** The setters; each panics on a value of another kind, and
    [Value.Set], here [SetValue], when the types differ. *)
Definition SetBool (v : Value) (x : bool) : outcome Value :=
  match kind (typ v) with
  | Bool => Ok (mkValue (typ v) (VBool x))
  | _ => Panic "reflect: call of reflect.Value.SetBool on non-bool Value"
  end.

Definition SetInt (v : Value) (x : Z) : outcome Value :=
  match kind (typ v) with
  | (Int | Int8 | Int16 | Int32 | Int64) as k =>
      Ok (mkValue (typ v) (VInt (wrapSigned (bits k) x)))
  | _ => Panic "reflect: call of reflect.Value.SetInt on non-int Value"
  end.

Definition SetUint (v : Value) (x : Z) : outcome Value :=
  match kind (typ v) with
  | (Uint | Uint8 | Uint16 | Uint32 | Uint64 | Uintptr) as k =>
      Ok (mkValue (typ v) (VUint (wrapUnsigned (bits k) x)))
  | _ => Panic "reflect: call of reflect.Value.SetUint on non-uint Value"
  end.

Definition SetFloat (narrow : Z -> Z) (v : Value) (x : Z) : outcome Value :=
  match kind (typ v) with
  | Float32 => Ok (mkValue (typ v) (VFloat (narrow x)))
  | Float64 => Ok (mkValue (typ v) (VFloat x))
  | _ => Panic "reflect: call of reflect.Value.SetFloat on non-float Value"
  end.

Definition SetString (v : Value) (x : string) : outcome Value :=
  match kind (typ v) with
  | String => Ok (mkValue (typ v) (VString x))
  | _ => Panic "reflect: call of reflect.Value.SetString on non-string Value"
  end.

Definition SetValue (v x : Value) : outcome Value :=
  if rtype_eqb (typ x) (typ v) then Ok (mkValue (typ v) (val x))
  else Panic "reflect.Set: value is not assignable to type".

End reflect.

(* ================================================================= *)
(** ** Package [cli] (urfave/cli), as far as the code uses it *)

Module cli.

(** The value a flag holds, by flag type. *)
Inductive FlagValue : Type :=
| StringValue (s : string)
| BoolValue (b : bool)
| Int64Value (n : Z)
| Uint64Value (n : Z)
| Float64Value (bits : Z)
| StringSliceValue (ss : list string).

(** [cli.StringFlag], [cli.BoolFlag], [cli.Int64Flag], [cli.Uint64Flag],
    [cli.Float64Flag] and [cli.StringSliceFlag] in one record: the flag
    type is the constructor of [Value].  A field the code leaves out of
    the literal ([DefaultText] of a [BoolFlag]) is the empty string. *)
Record Flag : Type := mkFlag {
  Name : string;
  Aliases : list string;
  Usage : string;
  Value : FlagValue;
  DefaultText : string;
  Required : bool
}.

(** [*cli.Command] as the binder sees it: the explicit-set query and
    the typed accessors, all keyed by flag name. *)
Record Command : Type := mkCommand {
  IsSet : string -> bool;
  String : string -> string;
  Bool : string -> bool;
  Int64 : string -> Z;
  Uint64 : string -> Z;
  Float64 : string -> Z;
  StringSlice : string -> list string
}.

(** A command after argument parsing: every flag of its flag set with
    the value given on the command line, if any.  A name is looked up
    among the flag's name and aliases, first match first; a typed
    accessor returns the flag's current value when the flag is of that
    type and the zero value otherwise. *)
Definition Names (f : Flag) : list string := Name f :: Aliases f.

Fixpoint lookupFlag (set : list (Flag * option FlagValue)) (name : string)
  : option (Flag * option FlagValue) :=
  match set with
  | [] => None
  | e :: rest =>
      if existsb (String.eqb name) (Names (fst e)) then Some e
      else lookupFlag rest name
  end.

Definition current (e : Flag * option FlagValue) : FlagValue :=
  match snd e with
  | Some v => v
  | None => Value (fst e)
  end.

Definition parsed (set : list (Flag * option FlagValue)) : Command :=
  let get {A} (zero : A) (pick : FlagValue -> option A) (name : string) : A :=
    match lookupFlag set name with
    | Some e => match pick (current e) with Some a => a | None => zero end
    | None => zero
    end in
  {| IsSet := fun name =>
       match lookupFlag set name with
       | Some (_, Some _) => true
       | _ => false
       end;
     String := get EmptyString (fun v => match v with StringValue s => Some s | _ => None end);
     Bool := get false (fun v => match v with BoolValue b => Some b | _ => None end);
     Int64 := get 0%Z (fun v => match v with Int64Value n => Some n | _ => None end);
     Uint64 := get 0%Z (fun v => match v with Uint64Value n => Some n | _ => None end);
     Float64 := get 0%Z (fun v => match v with Float64Value x => Some x | _ => None end);
     StringSlice := get [] (fun v => match v with StringSliceValue ss => Some ss | _ => None end)
  |}.

End cli.

(* ================================================================= *)
(** ** The libraries whose parsers are not modelled

    [strconv.ParseFloat], the narrowing of a [float64] to [float32],
    [time.ParseDuration], [time.Parse] and [uuid.FromString] are taken
    as given: each returns its value and its error, as in Go. *)

Record Parsers : Type := mkParsers {
  ParseFloat : string -> Z * option error;
  float32 : Z -> Z;
  ParseDuration : string -> Z * option error;
  Parse : string -> string -> Z * option error;
  FromString : string -> Z * option error
}.

(* ================================================================= *)
(** ** The helper file *)

Import reflect.

Definition tagCLI := "cli".
Definition tagCLIDefault := "cliDefault".
Definition tagCLIUsage := "cliUsage".
Definition tagCLITimeFmt := "cliTimeLayout".
Definition tagCLIPrefix := "cliPrefix".
Definition defaultTimeFmt := "2006-01-02T15:04:05Z07:00".

(** Takes T from *T if *T type passed. *)
Fixpoint unreferenceType (t : rtype) : rtype :=
  match t with
  | PointerTo e => unreferenceType e
  | _ => t
  end.

(** Takes T from *T if *T value passed; a nil pointer on the way gives
    a fresh value of the pointed-to type, detached from [v]. *)
Fixpoint unreferenceValue_ (t : rtype) (d : data) : Value :=
  match t, d with
  | PointerTo e, VPtr (Some x) => unreferenceValue_ e x
  | PointerTo e, _ => NewElem e
  | _, _ => mkValue t d
  end.
Definition unreferenceValue (v : Value) : Value := unreferenceValue_ (typ v) (val v).

(** What a store through [unreferenceValue v] does to [v]: it lands in
    [v] itself, behind its non-nil pointers, or nowhere (nil pointer). *)
Fixpoint storeThrough_ (t : rtype) (d : data) (new : data) : data :=
  match t, d with
  | PointerTo e, VPtr (Some x) => VPtr (Some (storeThrough_ e x new))
  | PointerTo e, _ => d
  | _, _ => new
  end.
Definition storeThrough (v : Value) (new : Value) : Value :=
  mkValue (typ v) (storeThrough_ (typ v) (val v) (val new)).

Definition isStructLike (t : rtype) : bool :=
  match unreferenceType t with
  | StructOf _ => true
  | _ => false
  end.

Definition splitCSV (s : string) : list string :=
  if String.eqb s "" then []
  else map strings.TrimSpace (strings.Split s ",").

Definition isAnyInt (k : Kind) : bool :=
  match k with
  | Int | Int8 | Int16 | Int32 | Int64 => true
  | _ => false
  end.

Definition isAnyUint (k : Kind) : bool :=
  match k with
  | Uint | Uint8 | Uint16 | Uint32 | Uint64 | Uintptr => true
  | _ => false
  end.

(** parseNamesWithOptions supports ",omitempty" as an extra token. *)
Definition parseNamesWithOptions (tag : string) : string * list string * bool :=
  let tag := strings.TrimSpace tag in
  if String.eqb tag "" then ("", [], false)
  else
    match splitCSV tag with
    | [] => ("", [], false)
    | p0 :: ps =>
        if String.eqb p0 "" then ("", [], false)
        else
          let step (acc : list string * bool) (p : string) :=
            let p := strings.TrimSpace p in
            if String.eqb p "omitempty" then (fst acc, true)
            else ((fst acc ++ [p])%list, snd acc) in
          let r := fold_left step ps ([], false) in
          (p0, fst r, snd r)
    end.

Definition castAndSetInt (field : Value) (v : Z) : outcome Value :=
  match kind (typ field) with
  | Int | Int64 | Int32 | Int16 | Int8 => SetInt field v
  | _ =>
      (* pointer? *)
      match typ field, val field with
      | PointerTo e, VPtr (Some x) =>
          if isAnyInt (kind e)
          then x' <- SetInt (mkValue e x) v ;;
               Ok (mkValue (typ field) (VPtr (Some (val x'))))
          else Ok field
      | _, _ => Ok field
      end
  end.

Definition castAndSetUint (field : Value) (v : Z) : outcome Value :=
  match kind (typ field) with
  | Uint | Uint64 | Uint32 | Uint16 | Uint8 | Uintptr => SetUint field v
  | _ =>
      match typ field, val field with
      | PointerTo e, VPtr (Some x) =>
          if isAnyUint (kind e)
          then x' <- SetUint (mkValue e x) v ;;
               Ok (mkValue (typ field) (VPtr (Some (val x'))))
          else Ok field
      | _, _ => Ok field
      end
  end.

(** A library call [(value, err)] whose error the caller wraps with
    [fmt.Errorf(msg + "%w", err)] and returns. *)
Definition checked {A} (msg : string) (r : A * option error) : outcome A :=
  match r with
  | (a, None) => Ok a
  | (_, Some e) => Err (wrapError msg e)
  end.

(* ================================================================= *)
(** ** [bind.go] *)

Section Binder.

Variable P : Parsers.
Variable ctx : cli.Command.

Definition timeLayoutOf (sf : StructField) : string :=
  let timeLayout := Get (Tag sf) tagCLITimeFmt in
  if String.eqb timeLayout "" then defaultTimeFmt else timeLayout.

(** One iteration of the loop of [setSliceField]: [Some val] when the
    element is appended, [None] when the iteration ends in [continue]. *)
Definition sliceElem (sf : StructField) (t : rtype) (s : string)
  : outcome (option Value) :=
  let val := NewElem t in
  if rtype_eqb t Duration then
    if String.eqb s "" then
      _ <- SetValue val (mkValue Duration (VInt 0)) ;; Ok None
    else
      d <- checked "parse duration: " (ParseDuration P s) ;;
      val <- SetValue val (mkValue Duration (VInt d)) ;; Ok (Some val)
  else if Kind_eqb (kind t) Bool then
    let tr := fst (strconv.ParseBool s) in
    val <- SetBool val tr ;; Ok (Some val)
  else if isAnyInt (kind t) then
    i <- checked "parse int: " (strconv.ParseInt s) ;;
    val <- castAndSetInt val i ;; Ok (Some val)
  else if isAnyUint (kind t) then
    i <- checked "parse uint: " (strconv.ParseUint s) ;;
    val <- castAndSetUint val i ;; Ok (Some val)
  else if Kind_eqb (kind t) Float32 || Kind_eqb (kind t) Float64 then
    i <- checked "parse float: " (ParseFloat P s) ;;
    val <- SetFloat (float32 P) val i ;; Ok (Some val)
  else if rtype_eqb t Time then
    let timeLayout := timeLayoutOf sf in
    if String.eqb s "" then
      _ <- SetValue val (mkValue Time (VTime 0)) ;; Ok None
    else
      t' <- checked "time parse: " (Parse P timeLayout s) ;;
      val <- SetValue val (mkValue Time (VTime t')) ;; Ok (Some val)
  else if rtype_eqb t UUID then
    if String.eqb s "" then
      _ <- SetValue val (mkValue UUID (VUUID 0)) ;; Ok None
    else
      id <- checked "parse uuid: " (FromString P s) ;;
      val <- SetValue val (mkValue UUID (VUUID id)) ;; Ok (Some val)
  else if Kind_eqb (kind t) String then
    val <- SetString val s ;; Ok (Some val)
  else if Kind_eqb (kind t) Slice then
    Err (errorString ("matrix type at " ++ Name sf ++ " is not supported"))
  else Ok (Some val).

(** The loop of [setSliceField] over the remaining strings, [out]
    being the slice built so far. *)
Fixpoint sliceLoop (sf : StructField) (t : rtype) (raw : list string)
                   (out : list data) : outcome (list data) :=
  match raw with
  | [] => Ok out
  | s :: rest =>
      r <- sliceElem sf t s ;;
      match r with
      | Some val => sliceLoop sf t rest (out ++ [reflect.val val])%list
      | None => sliceLoop sf t rest out
      end
  end.

(** setSliceField handles slice types (string, int, uuid, etc.) *)
Definition setSliceField (name : string) (sf : StructField) (field : Value)
  : outcome Value :=
  let raw := cli.StringSlice ctx name in
  match raw with
  | [] => Ok field
  | _ =>
      let ft := Typ sf in
      t <- Elem ft ;;
      out <- sliceLoop sf t raw [] ;;
      SetValue field (mkValue (SliceOf t) (VSlice (Some out)))
  end.

(** setFieldValue reads a CLI flag and sets the corresponding struct
    field; the result is [field] after the call. *)
Definition setFieldValue (name : string) (sf : StructField) (field : Value)
  : outcome Value :=
  let t := unreferenceType (Typ sf) in
  if rtype_eqb t Duration then
    let s := cli.String ctx name in
    if String.eqb s "" then SetValue field (mkValue Duration (VInt 0))
    else
      d <- checked "parse duration: " (ParseDuration P s) ;;
      SetValue field (mkValue Duration (VInt d))
  else if Kind_eqb (kind t) Bool then
    SetBool field (cli.Bool ctx name)
  else if isAnyInt (kind t) then
    castAndSetInt field (cli.Int64 ctx name)
  else if isAnyUint (kind t) then
    castAndSetUint field (cli.Uint64 ctx name)
  else if Kind_eqb (kind t) Float32 || Kind_eqb (kind t) Float64 then
    SetFloat (float32 P) field (cli.Float64 ctx name)
  else if rtype_eqb t Time then
    let timeLayout := timeLayoutOf sf in
    let s := cli.String ctx name in
    if String.eqb s "" then SetValue field (mkValue Time (VTime 0))
    else
      t' <- checked "time parse: " (Parse P timeLayout s) ;;
      SetValue field (mkValue Time (VTime t'))
  else if rtype_eqb t UUID then
    let s := cli.String ctx name in
    if String.eqb s "" then SetValue field (mkValue UUID (VUUID 0))
    else
      id <- checked "parse uuid: " (FromString P s) ;;
      SetValue field (mkValue UUID (VUUID id))
  else if Kind_eqb (kind t) String then
    SetString field (cli.String ctx name)
  else if Kind_eqb (kind t) Slice then
    setSliceField name sf field
  else Ok field.

(** The flag name of a field under a prefix, and its omit-empty mark. *)
Definition boundName (prefix : string) (sf : StructField) : string * bool :=
  let '(name, _, omitEmpty) := parseNamesWithOptions (Get (Tag sf) tagCLI) in
  let name := if String.eqb name "" then strings.ToLower (Name sf) else name in
  (prefix ++ name, omitEmpty).

(** The body of the loop of [bindStruct] for the field [sf], the
    recursive call being [rec]: the contents of the field afterwards
    and whether the iteration set [defined]. *)
Definition bindField (rec : rtype -> string -> outcome (option Value))
                     (prefix : string) (sf : StructField)
  : outcome (data * bool) :=
  let fv := NewElem (Typ sf) in
  if negb (String.eqb (PkgPath sf) "") then Ok (val fv, false)
  else
    let '(name, omitEmpty) := boundName prefix sf in
    if isStructLike (Typ sf) then
      pfx <- (if negb (Anonymous sf)
              then Ok (prefix ++ Get (Tag sf) tagCLIPrefix)
              else if negb (String.eqb (Get (Tag sf) tagCLI) "")
              then Err (errorString ("embedded struct " ++ Name sf
                                     ++ " has cli tag, but unsupported"))
              else Ok prefix) ;;
      subv <- wrapping ("bind substruct " ++ Name sf ++ ": ")
                       (rec (Typ sf) pfx) ;;
      match subv with
      | Some subv => fv <- SetValue fv subv ;; Ok (val fv, true)
      | None => Ok (val fv, false)
      end
    else if negb (cli.IsSet ctx name) && omitEmpty then Ok (val fv, false)
    else
      field <- wrapping ("set field " ++ Name sf ++ " value: ")
                        (setFieldValue name sf (unreferenceValue fv)) ;;
      Ok (val (storeThrough fv field), true).

(** [bindStruct]: [v] starts as the zero value of the struct and the
    loop visits its fields in order, each written at most once, so the
    loop is given as the list of the fields' final contents; the first
    error or panic ends it.  [time.Time] has unexported fields only.
    The calls to [log.Printf] are left out. *)
Fixpoint bindStruct (t : rtype) (prefix : string) : outcome (option Value) :=
  let t := unreferenceType t in
  match t with
  | StructOf fields =>
      r <- (fix loop (fs : list StructField) (defined : bool)
              : outcome (list data * bool) :=
              match fs with
              | [] => Ok ([], defined)
              | sf :: rest =>
                  f <- bindField bindStruct prefix sf ;;
                  r <- loop rest (defined || snd f) ;;
                  Ok (fst f :: fst r, snd r)
              end) fields false ;;
      if snd r then Ok (Some (mkValue t (VStruct (fst r)))) else Ok None
  | Time => Ok None
  | _ => Panic "reflect: NumField of non-struct type"
  end.

End Binder.

Section Bind.

Variable P : Parsers.
Variable ctx : cli.Command.

(** [Bind]: [dest] is an interface value, [None] when nil.  The result
    is [dest] after the call, with what the call did. *)
Definition Bind (dest : option Value) : option Value * outcome unit :=
  let invalid := errorString "Bind: dest must be a non-nil pointer to a struct" in
  match dest with
  | None => (dest, Err invalid)
  | Some rv =>
      match typ rv, val rv with
      | PointerTo elem, VPtr (Some target) =>
          match bindStruct P ctx (unreferenceType (typ rv)) "" with
          | Err e => (dest, Err e)
          | Panic msg => (dest, Panic msg)
          | Ok None => (dest, Ok tt)
          | Ok (Some v) =>
              match SetValue (mkValue elem target) v with
              | Ok x => (Some (mkValue (typ rv) (VPtr (Some (val x)))), Ok tt)
              | Err e => (dest, Err e)
              | Panic msg => (dest, Panic msg)
              end
          end
      | _, _ => (dest, Err invalid)
      end
  end.

End Bind.

(* ================================================================= *)
(** ** [flags.go] *)

Section Generator.

Variable P : Parsers.

(** The [switch] of [genFlagsForStruct]: the flag of a field that is
    not recursed into, if its type has one. *)
Definition leafFlag (inheritedPrefix : string) (sf : StructField)
  : option cli.Flag :=
  let '(name, aliases, omitEmpty) := parseNamesWithOptions (Get (Tag sf) tagCLI) in
  let name := if String.eqb name "" then strings.ToLower (Name sf) else name in
  (* apply inherited prefix to the primary name and aliases *)
  let name := inheritedPrefix ++ name in
  let aliases :=
    map (fun a => if (1 <? String.length a)%nat then inheritedPrefix ++ a else a)
        aliases in
  let usage := Get (Tag sf) tagCLIUsage in
  let def := Get (Tag sf) tagCLIDefault in
  let ft := Typ sf in
  let kind := kind (unreferenceType ft) in
  let required := negb omitEmpty && String.eqb def "" in
  if rtype_eqb ft Duration then
    Some (cli.mkFlag name aliases usage (cli.StringValue def) def required)
  else if Kind_eqb kind Bool then
    let f := fst (strconv.ParseBool def) in
    Some (cli.mkFlag name aliases usage (cli.BoolValue f) "" required)
  else if isAnyInt kind then
    let f := fst (strconv.ParseInt def) in
    Some (cli.mkFlag name aliases usage (cli.Int64Value f) def required)
  else if isAnyUint kind then
    let f := fst (strconv.ParseUint def) in
    Some (cli.mkFlag name aliases usage (cli.Uint64Value f) def required)
  else if Kind_eqb kind Float32 || Kind_eqb kind Float64 then
    let f := fst (ParseFloat P def) in
    Some (cli.mkFlag name aliases usage (cli.Float64Value f) def required)
  else if rtype_eqb ft Time then
    Some (cli.mkFlag name aliases usage (cli.StringValue def) def required)
  else if rtype_eqb ft UUID then
    Some (cli.mkFlag name aliases usage (cli.StringValue def) def required)
  else if Kind_eqb kind String then
    Some (cli.mkFlag name aliases usage (cli.StringValue def) def required)
  else if Kind_eqb kind Slice then
    Some (cli.mkFlag name aliases usage (cli.StringSliceValue (splitCSV def)) def required)
  else None.

(** The body of the loop of [genFlagsForStruct] for the field [sf],
    the recursive call being [rec]; [out] is the slice of flags. *)
Definition genField (rec : rtype -> string -> list cli.Flag -> outcome (list cli.Flag))
                    (inheritedPrefix : string) (sf : StructField)
                    (out : list cli.Flag) : outcome (list cli.Flag) :=
  if negb (String.eqb (PkgPath sf) "") then Ok out (* unexported *)
  else if isStructLike (Typ sf) && negb (String.eqb (Get (Tag sf) tagCLIPrefix) "") then
    (* a (sub)struct with cliPrefix: recurse *)
    let pfx := inheritedPrefix ++ Get (Tag sf) tagCLIPrefix in
    rec (unreferenceType (Typ sf)) pfx out
  else
    let '(name, _, _) := parseNamesWithOptions (Get (Tag sf) tagCLI) in
    if String.eqb name "" && (Anonymous sf && isStructLike (Typ sf)) then
      (* anonymous embedded structs (without cliPrefix) are flattened *)
      rec (unreferenceType (Typ sf)) inheritedPrefix out
    else
      match leafFlag inheritedPrefix sf with
      | Some f => Ok (out ++ [f])%list
      | None => Ok out
      end.

(** [genFlagsForStruct]; [rt.NumField] panics unless [rt] is a struct
    type, and [time.Time] has unexported fields only. *)
Fixpoint genFlagsForStruct (rt : rtype) (inheritedPrefix : string)
                           (out : list cli.Flag) : outcome (list cli.Flag) :=
  match rt with
  | StructOf fields =>
      (fix loop (fs : list StructField) (out : list cli.Flag)
         : outcome (list cli.Flag) :=
         match fs with
         | [] => Ok out
         | sf :: rest =>
             out <- genField genFlagsForStruct inheritedPrefix sf out ;;
             loop rest out
         end) fields out
  | Time => Ok out
  | _ => Panic "reflect: NumField of non-struct type"
  end.

(** [FlagsFromStruct]: only the dynamic type of [v] matters; a nil
    interface has none. *)
Definition FlagsFromStruct (v : option Value) : outcome (list cli.Flag) :=
  match v with
  | None => Panic "runtime error: invalid memory address or nil pointer dereference"
  | Some v =>
      let rt := unreferenceType (typ v) in
      if negb (Kind_eqb (kind rt) Struct) then Ok []
      else genFlagsForStruct rt "" []
  end.

End Generator.


(* ================================================================= *)
(** ** Definitions used to state the properties *)

(** The loops of [bindStruct] and [genFlagsForStruct] as functions of
    the remaining fields. *)
Fixpoint bindFields (P : Parsers) (ctx : cli.Command) (prefix : string)
                    (fs : list StructField) (defined : bool)
  : outcome (list data * bool) :=
  match fs with
  | [] => Ok ([], defined)
  | sf :: rest =>
      f <- bindField P ctx (bindStruct P ctx) prefix sf ;;
      r <- bindFields P ctx prefix rest (defined || snd f) ;;
      Ok (fst f :: fst r, snd r)
  end.

Fixpoint genFields (P : Parsers) (inheritedPrefix : string)
                   (fs : list StructField) (out : list cli.Flag)
  : outcome (list cli.Flag) :=
  match fs with
  | [] => Ok out
  | sf :: rest =>
      out <- genField P (genFlagsForStruct P) inheritedPrefix sf out ;;
      genFields P inheritedPrefix rest out
  end.


Definition exported (sf : StructField) : bool := String.eqb (PkgPath sf) "".

(** The omit-empty mark of a field. *)
Definition omitEmptyOf (sf : StructField) : bool :=
  snd (parseNamesWithOptions (Get (Tag sf) tagCLI)).

(** A destination [&x] for [Bind], [x] of type [t] with contents [d]. *)
Definition addressOf (t : rtype) (d : data) : option Value :=
  Some (mkValue (PointerTo t) (VPtr (Some d))).

(** An exported field, named and tagged. *)
Definition field (name : string) (t : rtype) (tag : StructTag) : StructField :=
  mkStructField name "" t tag false.

(** A finite part of the parsers of [strconv], [time] and [uuid], enough
    to run the examples below: each accepts the strings listed, with the
    value Go gives, and rejects the others. *)
Definition fromTable (pkg : string) (table : list (string * Z)) (s : string)
  : Z * option error :=
  match find (fun kv => String.eqb (fst kv) s) table with
  | Some kv => (snd kv, None)
  | None => (0%Z, Some (libError pkg s))
  end.

Definition someParsers : Parsers :=
  {| ParseFloat := fromTable "strconv.ParseFloat" [("0", 0%Z)];
     float32 := fun x => x;
     ParseDuration :=
       fromTable "time.ParseDuration"
         [("1s", 1000000000%Z); ("2s", 2000000000%Z); ("250ms", 250000000%Z)];
     Parse := fun layout =>
       if String.eqb layout "2006-01-02"
       then fromTable "time.Parse" [("0001-01-02", 86400%Z)]
       else fromTable "time.Parse" [];
     FromString := fromTable "uuid.FromString" [] |}.

(** The types the [switch] of [genFlagsForStruct] has a case for. *)
Definition hasFlagKind (t : rtype) : bool :=
  let k := kind (unreferenceType t) in
  rtype_eqb t Duration || Kind_eqb k Bool || isAnyInt k || isAnyUint k
  || Kind_eqb k Float32 || Kind_eqb k Float64
  || rtype_eqb t Time || rtype_eqb t UUID
  || Kind_eqb k String || Kind_eqb k Slice.





(** A struct with a named struct field that has no [cliPrefix]. *)
Definition SubCfg : rtype := StructOf [field "X" (Plain String) [("cli", "x")]].
Definition Outer : rtype := StructOf [field "Sub" SubCfg []].

(** A command with one string flag [x], given as [--x v]. *)
Definition commandX : cli.Command :=
  cli.parsed [(cli.mkFlag "x" [] "" (cli.StringValue "") "" false,
               Some (cli.StringValue "v"))].

(** The prefix [bindStruct] descends into a struct field with. *)
Definition nestedPrefix (prefix : string) (sf : StructField) : string :=
  if negb (Anonymous sf) then prefix ++ Get (Tag sf) tagCLIPrefix else prefix.

(** The fields [bindStruct] passes over: unexported ones, leaf fields
    marked omit-empty whose flag is not set, and struct fields in which
    the recursive call assigned nothing. *)
Inductive skips (P : Parsers) (ctx : cli.Command) (prefix : string)
                (sf : StructField) : Prop :=
| skips_unexported : exported sf = false -> skips P ctx prefix sf
| skips_omitempty :
    exported sf = true -> isStructLike (Typ sf) = false ->
    omitEmptyOf sf = true ->
    cli.IsSet ctx (fst (boundName prefix sf)) = false ->
    skips P ctx prefix sf
| skips_nested :
    exported sf = true -> isStructLike (Typ sf) = true ->
    bindStruct P ctx (Typ sf) (nestedPrefix prefix sf) = Ok None ->
    skips P ctx prefix sf.

(** A string of a repeated flag that fails the parser of the element
    type [t], with the error [setSliceField] returns for it. *)
Inductive elementFails (P : Parsers) (sf : StructField) (s : string)
  : rtype -> error -> Prop :=
| elementFails_duration e :
    s <> "" -> snd (ParseDuration P s) = Some e ->
    elementFails P sf s Duration (wrapError "parse duration: " e)
| elementFails_int k e :
    isAnyInt k = true -> snd (strconv.ParseInt s) = Some e ->
    elementFails P sf s (Plain k) (wrapError "parse int: " e)
| elementFails_uint k e :
    isAnyUint k = true -> snd (strconv.ParseUint s) = Some e ->
    elementFails P sf s (Plain k) (wrapError "parse uint: " e)
| elementFails_float k e :
    k = Float32 \/ k = Float64 -> snd (ParseFloat P s) = Some e ->
    elementFails P sf s (Plain k) (wrapError "parse float: " e)
| elementFails_time e :
    s <> "" -> snd (Parse P (timeLayoutOf sf) s) = Some e ->
    elementFails P sf s Time (wrapError "time parse: " e)
| elementFails_uuid e :
    s <> "" -> snd (FromString P s) = Some e ->
    elementFails P sf s UUID (wrapError "parse uuid: " e).

(** The flag value of the field [sf] fails semantic parsing: a
    duration, a timestamp or an identifier, the field being of that type
    or a pointer to it, or an element of a sequence whose earlier
    elements go through. *)
Inductive parseFails (P : Parsers) (ctx : cli.Command) (name : string)
                     (sf : StructField) : error -> Prop :=
| parseFails_duration e :
    unreferenceType (Typ sf) = Duration -> cli.String ctx name <> "" ->
    snd (ParseDuration P (cli.String ctx name)) = Some e ->
    parseFails P ctx name sf (wrapError "parse duration: " e)
| parseFails_time e :
    unreferenceType (Typ sf) = Time -> cli.String ctx name <> "" ->
    snd (Parse P (timeLayoutOf sf) (cli.String ctx name)) = Some e ->
    parseFails P ctx name sf (wrapError "time parse: " e)
| parseFails_uuid e :
    unreferenceType (Typ sf) = UUID -> cli.String ctx name <> "" ->
    snd (FromString P (cli.String ctx name)) = Some e ->
    parseFails P ctx name sf (wrapError "parse uuid: " e)
| parseFails_element t before s after e :
    Typ sf = SliceOf t ->
    cli.StringSlice ctx name = (before ++ s :: after)%list ->
    Forall (fun s' => exists r, sliceElem P sf t s' = Ok r) before ->
    elementFails P sf s t e ->
    parseFails P ctx name sf e.

(** Where [bindStruct] meets a field.  [located P ctx sf0 prefix fs path
    name]: the walk of [bindStruct] over the fields [fs] under [prefix]
    reaches the exported field [sf0], of [fs] itself or of a struct
    nested in it, the fields before it on the way binding without error;
    [path] names the struct fields descended into, outermost first, and
    [name] is the flag name under which [sf0] is looked up. *)
Inductive located (P : Parsers) (ctx : cli.Command) (sf0 : StructField)
  : string -> list StructField -> list string -> string -> Prop :=
| located_here prefix pre post r :
    exported sf0 = true ->
    bindStruct P ctx (StructOf pre) prefix = Ok r ->
    located P ctx sf0 prefix (pre ++ sf0 :: post)%list []
            (fst (boundName prefix sf0))
| located_under prefix pre sf post r gs path name :
    exported sf = true ->
    bindStruct P ctx (StructOf pre) prefix = Ok r ->
    unreferenceType (Typ sf) = StructOf gs ->
    (Anonymous sf = true -> Get (Tag sf) tagCLI = "") ->
    located P ctx sf0 (nestedPrefix prefix sf) gs path name ->
    located P ctx sf0 prefix (pre ++ sf :: post)%list (Name sf :: path) name.

(** The error [bindStruct] returns for an error [e] of [setFieldValue]
    on the field named [field], met under the struct fields [path]. *)
Fixpoint fieldError (path : list string) (field : string) (e : error) : error :=
  match path with
  | [] => wrapError ("set field " ++ field ++ " value: ") e
  | sub :: path' =>
      wrapError ("bind substruct " ++ sub ++ ": ") (fieldError path' field e)
  end.

(** A struct with a pointer to a nested struct under a prefix, the
    nested struct holding a pointer to a duration and a sequence of
    sequences; a command that gives [--a x --sub.d abc --sub.m a]. *)
Definition Inner : list StructField :=
  [field "D" (PointerTo Duration) [("cli", "d")];
   field "M" (SliceOf (SliceOf (Plain String))) [("cli", "m")]].

Definition Nested : list StructField :=
  [field "A" (Plain String) [("cli", "a")];
   field "Sub" (PointerTo (StructOf Inner)) [("cliPrefix", "sub.")]].

Definition commandNested : cli.Command :=
  cli.parsed [(cli.mkFlag "a" [] "" (cli.StringValue "") "" true,
               Some (cli.StringValue "x"));
              (cli.mkFlag "sub.d" [] "" (cli.StringValue "") "" true,
               Some (cli.StringValue "abc"));
              (cli.mkFlag "sub.m" [] "" (cli.StringSliceValue []) "" true,
               Some (cli.StringSliceValue ["a"]))].

(** A struct with a string and a duration, and a command that gives
    [--a x --d abc]. *)
Definition Job : rtype :=
  StructOf [field "A" (Plain String) [("cli", "a")];
            field "D" Duration [("cli", "d")]].

Definition commandJob : cli.Command :=
  cli.parsed [(cli.mkFlag "a" [] "" (cli.StringValue "") "" true,
               Some (cli.StringValue "x"));
              (cli.mkFlag "d" [] "" (cli.StringValue "") "" true,
               Some (cli.StringValue "abc"))].

(** A struct with an optional field, one with an unexported field, one
    with sequences and one with a sequence of sequences; a command that
    gives [--d 1s --d "" --d 2s --b maybe]. *)
Definition Opt : rtype :=
  StructOf [field "A" (Plain String) [("cli", "a")];
            field "B" (Plain Int) [("cli", "b,omitempty")]].

Definition Hidden : rtype :=
  StructOf [mkStructField "secret" "main" (Plain String) [("cli", "a")] false;
            field "A" (Plain String) [("cli", "a")]].

Definition Seqs : rtype :=
  StructOf [field "D" (SliceOf Duration) [("cli", "d")];
            field "B" (SliceOf (Plain Bool)) [("cli", "b")]].


Definition commandSeqs : cli.Command :=
  cli.parsed [(cli.mkFlag "d" [] "" (cli.StringSliceValue []) "" true,
               Some (cli.StringSliceValue ["1s"; ""; "2s"]));
              (cli.mkFlag "b" [] "" (cli.StringSliceValue []) "" true,
               Some (cli.StringSliceValue ["maybe"]));
              (cli.mkFlag "m" [] "" (cli.StringSliceValue []) "" true,
               Some (cli.StringSliceValue ["a"]))].

(** *** The round trip

    The scalar types, and what it is for a value given to a flag to
    stand for contents of a field: an integer within the width of the
    field, a float that a [float32] field holds exactly, a non-empty
    string that the parser of the field's type accepts. *)
Definition scalar (t : rtype) : bool :=
  match t with
  | Plain k =>
      Kind_eqb k Bool || isAnyInt k || isAnyUint k
      || Kind_eqb k Float32 || Kind_eqb k Float64 || Kind_eqb k String
  | Duration | Time | UUID => true
  | _ => false
  end.

Inductive encodes (P : Parsers) (sf : StructField) : cli.FlagValue -> data -> Prop :=
| encodes_bool b :
    Typ sf = Plain Bool -> encodes P sf (cli.BoolValue b) (VBool b)
| encodes_int k n :
    Typ sf = Plain k -> isAnyInt k = true ->
    (- 2 ^ (bits k - 1) <= n < 2 ^ (bits k - 1))%Z ->
    encodes P sf (cli.Int64Value n) (VInt n)
| encodes_uint k n :
    Typ sf = Plain k -> isAnyUint k = true ->
    (0 <= n < 2 ^ bits k)%Z ->
    encodes P sf (cli.Uint64Value n) (VUint n)
| encodes_float64 x :
    Typ sf = Plain Float64 -> encodes P sf (cli.Float64Value x) (VFloat x)
| encodes_float32 x :
    Typ sf = Plain Float32 -> float32 P x = x ->
    encodes P sf (cli.Float64Value x) (VFloat x)
| encodes_string s :
    Typ sf = Plain String -> encodes P sf (cli.StringValue s) (VString s)
| encodes_duration s d :
    Typ sf = Duration -> s <> "" -> ParseDuration P s = (d, None) ->
    encodes P sf (cli.StringValue s) (VInt d)
| encodes_time s t :
    Typ sf = Time -> s <> "" -> Parse P (timeLayoutOf sf) s = (t, None) ->
    encodes P sf (cli.StringValue s) (VTime t)
| encodes_uuid s u :
    Typ sf = UUID -> s <> "" -> FromString P s = (u, None) ->
    encodes P sf (cli.StringValue s) (VUUID u).

(** The values supplied for the fields of a struct: one flag value for
    each exported field, in order, and the contents they stand for; an
    unexported field has no flag and keeps its zero value. *)
Inductive supplies (P : Parsers)
  : list StructField -> list cli.FlagValue -> list data -> Prop :=
| supplies_nil : supplies P [] [] []
| supplies_unexported sf fs raws vs :
    exported sf = false -> supplies P fs raws vs ->
    supplies P (sf :: fs) raws (zero (Typ sf) :: vs)
| supplies_exported sf fs raw raws v vs :
    exported sf = true -> encodes P sf raw v -> supplies P fs raws vs ->
    supplies P (sf :: fs) (raw :: raws) (v :: vs).

(** Two flag values of the same flag type. *)
Definition sameFlagType (a b : cli.FlagValue) : Prop :=
  match a, b with
  | cli.StringValue _, cli.StringValue _
  | cli.BoolValue _, cli.BoolValue _
  | cli.Int64Value _, cli.Int64Value _
  | cli.Uint64Value _, cli.Uint64Value _
  | cli.Float64Value _, cli.Float64Value _
  | cli.StringSliceValue _, cli.StringSliceValue _ => True
  | _, _ => False
  end.

(** The names by which the flags of a parsed command are found. *)
Definition allNames (set : list (cli.Flag * option cli.FlagValue)) : list string :=
  flat_map (fun e => cli.Names (fst e)) set.

(** The flags of a struct whose exported fields are leaves. *)
Definition flagsFor (P : Parsers) (fs : list StructField) : list cli.Flag :=
  flat_map (fun sf => if exported sf
                      then match leafFlag P "" sf with
                           | Some f => [f]
                           | None => []
                           end
                      else []) fs.

(** What the typed accessors of a command return for a flag holding
    the value [raw]. *)
Definition reads (ctx : cli.Command) (name : string) (raw : cli.FlagValue) : Prop :=
  match raw with
  | cli.StringValue s => cli.String ctx name = s
  | cli.BoolValue b => cli.Bool ctx name = b
  | cli.Int64Value n => cli.Int64 ctx name = n
  | cli.Uint64Value n => cli.Uint64 ctx name = n
  | cli.Float64Value x => cli.Float64 ctx name = x
  | cli.StringSliceValue ss => cli.StringSlice ctx name = ss
  end.

(** A struct with scalar fields of several kinds and an unexported
    field, the flags generated for it and a value for each flag. *)
Definition Mixed : list StructField :=
  [field "Name" (Plain String) [("cli", "name,n"); ("cliDefault", "guest")];
   field "Count" (Plain Int8) [("cli", "count")];
   mkStructField "secret" "main" (Plain String) [("cli", "name")] false;
   field "Delay" Duration [("cli", "delay,omitempty")];
   field "On" (Plain Bool) []].

Definition MixedFlags : list cli.Flag :=
  [cli.mkFlag "name" ["n"] "" (cli.StringValue "guest") "guest" false;
   cli.mkFlag "count" [] "" (cli.Int64Value 0) "" true;
   cli.mkFlag "delay" [] "" (cli.StringValue "") "" false;
   cli.mkFlag "on" [] "" (cli.BoolValue false) "" true].

Definition MixedValues : list cli.FlagValue :=
  [cli.StringValue "ann"; cli.Int64Value (-7); cli.StringValue "250ms";
   cli.BoolValue true].

(** A struct with an [int8] field. *)
Definition Small : rtype := StructOf [field "N" (Plain Int8) [("cli", "n")]].


(** Induction on types, through the fields of struct types. *)

Section rtype_induction.

Variable Q : rtype -> Prop.
Hypothesis HPlain : forall k, Q (Plain k).
Hypothesis HDuration : Q Duration.
Hypothesis HTime : Q Time.
Hypothesis HUUID : Q UUID.
Hypothesis HPointerTo : forall e, Q e -> Q (PointerTo e).
Hypothesis HSliceOf : forall e, Q e -> Q (SliceOf e).
Hypothesis HStructOf : forall fs, Forall (fun sf => Q (Typ sf)) fs -> Q (StructOf fs).

Fixpoint rtype_nested_ind (t : rtype) : Q t :=
  match t with
  | Plain k => HPlain k
  | Duration => HDuration
  | Time => HTime
  | UUID => HUUID
  | PointerTo e => HPointerTo e (rtype_nested_ind e)
  | SliceOf e => HSliceOf e (rtype_nested_ind e)
  | StructOf fs =>
      HStructOf fs
        ((fix all (l : list StructField) : Forall (fun sf => Q (Typ sf)) l :=
            match l with
            | [] => Forall_nil _
            | sf :: l' =>
                Forall_cons sf
                  (match sf return Q (Typ sf) with
                   | mkStructField _ _ ty _ _ => rtype_nested_ind ty
                   end)
                  (all l')
            end) fs)
  end.

End rtype_induction.

(** *** [WithBinding]

    [WithBinding[T](fn)] is the action it returns, applied to a context
    and a command: [var t T], then [Bind(c, &t)], then [fn(ctx, t)].
    The handler returns normally, returns an error or panics. *)
Section WithBinding.

Variable P : Parsers.
Variable Context : Type.

Definition WithBinding (T : rtype) (fn : Context -> data -> outcome unit)
                       (ctx : Context) (c : cli.Command) : outcome unit :=
  let t := zero T in
  match Bind P c (addressOf T t) with
  | (_, Err e) => Err (wrapError "bind flags: " e)
  | (_, Panic msg) => Panic msg
  | (dest, Ok _) =>
      match dest with
      | Some (mkValue _ (VPtr (Some t))) => fn ctx t
      | _ => fn ctx t
      end
  end.

End WithBinding.

(** An error that carries the name of the field [sf], in one of the
    three forms [bindStruct] builds. *)
Inductive namesField (sf : StructField) : error -> Prop :=
| namesField_set e :
    namesField sf (wrapError ("set field " ++ Name sf ++ " value: ") e)
| namesField_substruct e :
    namesField sf (wrapError ("bind substruct " ++ Name sf ++ ": ") e)
| namesField_embedded :
    namesField sf (errorString ("embedded struct " ++ Name sf
                                ++ " has cli tag, but unsupported")).

(** The bytes of a string, and a string with no white space at either
    end. *)
Fixpoint occurs (c : ascii) (s : string) : Prop :=
  match s with
  | EmptyString => False
  | String.String c' r => c' = c \/ occurs c r
  end.

Fixpoint count (c : ascii) (s : string) : nat :=
  match s with
  | EmptyString => 0
  | String.String c' r => (if Ascii.eqb c' c then 1 else 0) + count c r
  end.

Definition trimmed (s : string) : Prop := strings.TrimSpace s = s.

(** A struct field into which the generator and the binder descend
    with the same prefix: a named field with a [cliPrefix] tag, which
    both add, or an embedded one without, where neither adds anything.
    (For a named field without the tag the generator does not descend;
    for an embedded one with it only the generator adds the prefix.) *)
Definition samePrefix (sf : StructField) : bool :=
  if Anonymous sf
  then String.eqb (Get (Tag sf) tagCLIPrefix) ""
  else negb (String.eqb (Get (Tag sf) tagCLIPrefix) "").

(** The walk of [bindStruct] from the fields [fs], under a prefix, down
    to the exported field [sf0]: [through] lists the struct fields
    descended into, each with the prefix [bindStruct] computes for it,
    and the last index is the name [bindStruct] gives to [ctx.IsSet] and
    to [setFieldValue] for [sf0]. *)
Inductive walks (sf0 : StructField)
  : string -> list StructField -> list StructField -> string -> Prop :=
| walks_here prefix pre post :
    exported sf0 = true ->
    walks sf0 prefix (pre ++ sf0 :: post)%list [] (fst (boundName prefix sf0))
| walks_under prefix pre sf post gs through name :
    exported sf = true ->
    unreferenceType (Typ sf) = StructOf gs ->
    (Anonymous sf = true -> Get (Tag sf) tagCLI = "") ->
    walks sf0 (nestedPrefix prefix sf) gs through name ->
    walks sf0 prefix (pre ++ sf :: post)%list (sf :: through) name.

(** An embedded struct with a [cliPrefix] tag, and a command that gives
    [--db.host h]. *)
Definition Conn : list StructField :=
  [field "Host" (Plain String) [("cli", "host")]].

Definition Service : list StructField :=
  [mkStructField "Conn" "" (StructOf Conn) [("cliPrefix", "db.")] true].

Definition commandService : cli.Command :=
  cli.parsed [(cli.mkFlag "db.host" [] "" (cli.StringValue "") "" true,
               Some (cli.StringValue "h"))].

(* ================================================================= *)
(** * Properties *)

Lemma Kind_eqb_eq (a b : Kind) : Kind_eqb a b = true <-> a = b.
Proof. split; [destruct a, b; simpl; congruence | intros ->; destruct b; reflexivity]. Qed.

Lemma tag_eqb_refl (g : StructTag) : tag_eqb g g = true.
Proof.
  induction g as [|[k v] g IH]; simpl; [reflexivity|].
  now rewrite !String.eqb_refl, IH.
Qed.

Lemma rtype_eqb_refl (t : rtype) : rtype_eqb t t = true.
Proof.
  induction t as [k| | | |e IH|e IH|fs IH] using rtype_nested_ind;
    simpl; auto.
  - now apply Kind_eqb_eq.
  - induction IH as [|[n p ty g a] l Hty _ IHl]; [reflexivity|].
    simpl in Hty. rewrite !String.eqb_refl, Hty, tag_eqb_refl, Bool.eqb_reflx, IHl.
    reflexivity.
Qed.

(** ** The loops, unfolded *)

Lemma bindStruct_StructOf P ctx fs prefix :
  bindStruct P ctx (StructOf fs) prefix =
  (r <- bindFields P ctx prefix fs false ;;
   if snd r then Ok (Some (mkValue (StructOf fs) (VStruct (fst r)))) else Ok None).
Proof.
  simpl. f_equal. generalize false.
  induction fs as [|sf rest IH]; intro d; simpl; [reflexivity|].
  destruct (bindField P ctx (bindStruct P ctx) prefix sf); simpl; auto.
  now rewrite IH.
Qed.

Lemma bindStruct_PointerTo P ctx e prefix :
  bindStruct P ctx (PointerTo e) prefix = bindStruct P ctx e prefix.
Proof. destruct e; reflexivity. Qed.

Lemma bindStruct_unreferenceType P ctx t prefix :
  bindStruct P ctx t prefix = bindStruct P ctx (unreferenceType t) prefix.
Proof.
  induction t as [k| | | |e IH|e IH|fs IH] using rtype_nested_ind;
    try reflexivity.
  rewrite bindStruct_PointerTo. exact IH.
Qed.

Lemma genFlagsForStruct_StructOf P fs prefix out :
  genFlagsForStruct P (StructOf fs) prefix out = genFields P prefix fs out.
Proof.
  simpl. revert out.
  induction fs as [|sf rest IH]; intro out; simpl; [reflexivity|].
  destruct (genField P (genFlagsForStruct P) prefix sf out); simpl; auto.
Qed.

(** ** Flag generation *)


Lemma isStructLike_inv (t : rtype) :
  isStructLike t = true -> exists fs, unreferenceType t = StructOf fs.
Proof.
  unfold isStructLike. destruct (unreferenceType t); try discriminate; eauto.
Qed.




Lemma leafFlag_Required P prefix sf f :
  leafFlag P prefix sf = Some f ->
  cli.Required f
  = negb (omitEmptyOf sf) && String.eqb (Get (Tag sf) tagCLIDefault) "".
Proof.
  unfold leafFlag, omitEmptyOf.
  destruct (parseNamesWithOptions (Get (Tag sf) tagCLI)) as [[name al] om]; simpl.
  repeat match goal with
         | |- (if ?c then _ else _) = Some _ -> _ => destruct c
         end; intro H; inversion H; reflexivity.
Qed.

(** ** Defaults that do not parse *)

Lemma parseUintLoop_cases s0 s n :
  let r := strconv.parseUintLoop s0 s n in
  snd r = None
  \/ r = (0%Z, Some (strconv.syntaxError "ParseUint" s0))
  \/ r = (strconv.maxUint64, Some (strconv.rangeError "ParseUint" s0)).
Proof.
  revert n. induction s as [|c s IH]; intro n; simpl; auto.
  repeat match goal with
         | |- context [if ?c then _ else _] => destruct c; simpl; auto
         end.
Qed.

Lemma ParseUint_cases s :
  snd (strconv.ParseUint s) = None
  \/ strconv.ParseUint s = (0%Z, Some (strconv.syntaxError "ParseUint" s))
  \/ strconv.ParseUint s = (strconv.maxUint64, Some (strconv.rangeError "ParseUint" s)).
Proof.
  unfold strconv.ParseUint. destruct s as [|c s]; auto.
  apply (parseUintLoop_cases (String.String c s) (String.String c s) 0).
Qed.

Lemma ParseInt_cases s :
  snd (strconv.ParseInt s) = None
  \/ strconv.ParseInt s = (0%Z, Some (strconv.syntaxError "ParseInt" s))
  \/ strconv.ParseInt s = ((2 ^ 63 - 1)%Z, Some (strconv.rangeError "ParseInt" s))
  \/ strconv.ParseInt s = ((- 2 ^ 63)%Z, Some (strconv.rangeError "ParseInt" s)).
Proof.
  unfold strconv.ParseInt. destruct s as [|c s]; auto.
  match goal with |- context [strconv.ParseUint ?d] =>
    destruct (ParseUint_cases d) as [H | [H | H]];
    destruct (strconv.ParseUint d) as [un e] end.
  - simpl in H. subst e.
    repeat match goal with
           | |- context [if ?c then _ else _] => destruct c; simpl; auto
           end.
  - inversion H; subst. simpl. auto.
  - inversion H; subst. unfold strconv.rangeError, ErrRange.
    cbv beta iota.
    repeat match goal with
           | |- context [if ?c then _ else _] => destruct c eqn:?; simpl; auto
           end.
Qed.



(** ** The destination of [Bind] *)

(** C2 at a destination that is a non-nil pointer, but not to a struct
    ([new(int)]): [Bind] does not return the error its documentation
    promises, it panics in [reflect].  A nil interface, a value that is
    no pointer and a nil pointer do get the error. *)
Theorem Bind_pointer_to_int_panics (P : Parsers) (ctx : cli.Command) :
  let invalid := errorString "Bind: dest must be a non-nil pointer to a struct" in
  Bind P ctx None = (None, Err invalid)
  /\ Bind P ctx (Some (mkValue (Plain Int) (VInt 0)))
     = (Some (mkValue (Plain Int) (VInt 0)), Err invalid)
  /\ Bind P ctx (Some (mkValue (PointerTo (Plain Int)) (VPtr None)))
     = (Some (mkValue (PointerTo (Plain Int)) (VPtr None)), Err invalid)
  /\ Bind P ctx (addressOf (Plain Int) (VInt 0))
     = (addressOf (Plain Int) (VInt 0),
        Panic "reflect: NumField of non-struct type").
Proof. repeat split. Qed.

(** ** Named struct fields without a prefix *)

(** C3 at [Outer], whose field [Sub SubCfg] has no [cliPrefix]:
    generation emits no flag for [Sub] or its members, yet [Bind]
    descends into [Sub] and assigns [Sub.X] from the flag [x]. *)
Theorem Bind_descends_into_unprefixed_struct (P : Parsers) :
  FlagsFromStruct P (Some (NewElem Outer)) = Ok []
  /\ Bind P commandX (addressOf Outer (zero Outer))
     = (addressOf Outer (VStruct [VStruct [VString "v"]]), Ok tt).
Proof. split; vm_compute; reflexivity. Qed.

(** ** The loop of [bindStruct] *)

Lemma bindFields_app P ctx prefix pre l d :
  bindFields P ctx prefix (pre ++ l) d =
  (r1 <- bindFields P ctx prefix pre d ;;
   r2 <- bindFields P ctx prefix l (snd r1) ;;
   Ok ((fst r1 ++ fst r2)%list, snd r2)).
Proof.
  revert d. induction pre as [|sf pre IH]; intro d; simpl.
  - destruct (bindFields P ctx prefix l d) as [[vs d']| |]; reflexivity.
  - destruct (bindField P ctx (bindStruct P ctx) prefix sf) as [f| |]; simpl; auto.
    rewrite IH.
    destruct (bindFields P ctx prefix pre (d || snd f)) as [r1| |]; simpl; auto.
    destruct (bindFields P ctx prefix l (snd r1)) as [r2| |]; reflexivity.
Qed.

(** The first field whose iteration returns an error ends the loop
    with that error, whatever follows. *)
Lemma bindFields_abort P ctx prefix pre sf post d r e :
  bindFields P ctx prefix pre d = Ok r ->
  bindField P ctx (bindStruct P ctx) prefix sf = Err e ->
  bindFields P ctx prefix (pre ++ sf :: post) d = Err e.
Proof.
  intros Hpre Hsf. rewrite bindFields_app, Hpre. simpl. now rewrite Hsf.
Qed.

Lemma bindStruct_abort P ctx prefix pre sf post r e :
  bindStruct P ctx (StructOf pre) prefix = Ok r ->
  bindField P ctx (bindStruct P ctx) prefix sf = Err e ->
  bindStruct P ctx (StructOf (pre ++ sf :: post)) prefix = Err e.
Proof.
  rewrite !bindStruct_StructOf. intros Hpre Hsf.
  destruct (bindFields P ctx prefix pre false) as [r1| |] eqn:H1;
    simpl in Hpre; try discriminate.
  now rewrite (bindFields_abort _ _ _ _ _ _ _ _ _ H1 Hsf).
Qed.

Lemma bindFields_Ok_inv P ctx prefix fs :
  forall d vs d',
    bindFields P ctx prefix fs d = Ok (vs, d') ->
    exists rs,
      Forall2 (fun sf r => bindField P ctx (bindStruct P ctx) prefix sf = Ok r) fs rs
      /\ vs = map fst rs /\ d' = d || existsb snd rs.
Proof.
  induction fs as [|sf rest IH]; intros d vs d' H; simpl in H.
  - inversion H; subst. exists []. repeat split; [constructor | now rewrite orb_false_r].
  - destruct (bindField P ctx (bindStruct P ctx) prefix sf) as [f| |] eqn:Hf;
      simpl in H; try discriminate.
    destruct (bindFields P ctx prefix rest (d || snd f)) as [[vs1 d1]| |] eqn:Hr;
      simpl in H; try discriminate.
    inversion H; subst. destruct (IH _ _ _ Hr) as (rs & Hall & Hvs & Hd).
    exists (f :: rs). repeat split.
    + constructor; assumption.
    + simpl. now rewrite Hvs.
    + simpl. now rewrite Hd, orb_assoc.
Qed.

(** The iteration for a leaf field. *)
Lemma bindField_leaf P ctx rec prefix sf :
  exported sf = true -> isStructLike (Typ sf) = false ->
  bindField P ctx rec prefix sf =
  if negb (cli.IsSet ctx (fst (boundName prefix sf))) && omitEmptyOf sf
  then Ok (zero (Typ sf), false)
  else
    field <- wrapping ("set field " ++ Name sf ++ " value: ")
               (setFieldValue P ctx (fst (boundName prefix sf)) sf
                  (unreferenceValue (NewElem (Typ sf)))) ;;
    Ok (val (storeThrough (NewElem (Typ sf)) field), true).
Proof.
  unfold exported, bindField, boundName, omitEmptyOf. intros -> ->. simpl.
  destruct (parseNamesWithOptions (Get (Tag sf) tagCLI)) as [[name al] om].
  reflexivity.
Qed.

(** An iteration that does not set [defined] leaves the field at its
    zero value. *)
Lemma bindField_unassigned P ctx rec prefix sf v :
  bindField P ctx rec prefix sf = Ok (v, false) -> v = zero (Typ sf).
Proof.
  unfold bindField.
  destruct (negb (String.eqb (PkgPath sf) "")); [intro H; now inversion H|].
  destruct (boundName prefix sf) as [name om].
  destruct (isStructLike (Typ sf)).
  - match goal with |- (pfx <- ?m ;; _) = _ -> _ => destruct m as [pfx| |] end;
      simpl; try discriminate.
    destruct (rec (Typ sf) pfx) as [[subv|]| |]; simpl; try discriminate.
    + destruct (SetValue (NewElem (Typ sf)) subv); simpl; discriminate.
    + intro H; now inversion H.
  - destruct (negb (cli.IsSet ctx name) && om); [intro H; now inversion H|].
    match goal with |- (field <- ?m ;; _) = _ -> _ => destruct m end;
      simpl; discriminate.
Qed.

Lemma skips_unassigned P ctx prefix sf r :
  skips P ctx prefix sf ->
  bindField P ctx (bindStruct P ctx) prefix sf = Ok r ->
  r = (zero (Typ sf), false).
Proof.
  intros [Hu | He Hl Hom Hset | He Hs Hnone].
  - unfold bindField. unfold exported in Hu. rewrite Hu. simpl.
    intro H; now inversion H.
  - rewrite (bindField_leaf _ _ _ _ _ He Hl), Hset, Hom. simpl.
    intro H; now inversion H.
  - unfold bindField. unfold exported in He. rewrite He. simpl.
    destruct (boundName prefix sf) as [name om]. rewrite Hs.
    unfold nestedPrefix in Hnone.
    destruct (negb (Anonymous sf)); simpl.
    + rewrite Hnone. simpl. intro H; now inversion H.
    + destruct (negb (String.eqb (Get (Tag sf) tagCLI) "")); simpl; try discriminate.
      rewrite Hnone. simpl. intro H; now inversion H.
Qed.

Lemma Forall2_at {A B} (R : A -> B -> Prop) (l : list A) (l' : list B) :
  Forall2 R l l' ->
  forall i x, nth_error l i = Some x ->
  exists y, nth_error l' i = Some y /\ R x y.
Proof.
  induction 1 as [|a b l l' Hab _ IH]; intros [|i] x Hx; simpl in *;
    try discriminate.
  - inversion Hx; subst. eauto.
  - eauto.
Qed.

(** [Bind] on the address of a struct, in terms of [bindStruct]. *)
Lemma Bind_addressOf P ctx fs old :
  Bind P ctx (addressOf (StructOf fs) old) =
  match bindStruct P ctx (StructOf fs) "" with
  | Err e => (addressOf (StructOf fs) old, Err e)
  | Panic msg => (addressOf (StructOf fs) old, Panic msg)
  | Ok None => (addressOf (StructOf fs) old, Ok tt)
  | Ok (Some v) =>
      if rtype_eqb (typ v) (StructOf fs)
      then (addressOf (StructOf fs) (val v), Ok tt)
      else (addressOf (StructOf fs) old,
            Panic "reflect.Set: value is not assignable to type")
  end.
Proof.
  unfold Bind, addressOf. cbn [typ val unreferenceType].
  destruct (bindStruct P ctx (StructOf fs) "") as [[v|]| |]; try reflexivity.
  unfold SetValue. cbn [typ val].
  destruct (rtype_eqb (typ v) (StructOf fs)); reflexivity.
Qed.

(** What [Bind] does to the struct its destination points to, from the
    iterations [rs] of the loop over the fields. *)
Lemma Bind_addressOf_Ok P ctx fs old d' :
  Bind P ctx (addressOf (StructOf fs) old) = (d', Ok tt) ->
  exists rs,
    Forall2 (fun sf r => bindField P ctx (bindStruct P ctx) "" sf = Ok r) fs rs
    /\ d' = addressOf (StructOf fs)
              (if existsb snd rs then VStruct (map fst rs) else old).
Proof.
  rewrite Bind_addressOf, bindStruct_StructOf.
  destruct (bindFields P ctx "" fs false) as [[vs d]| |] eqn:Hfs;
    cbn [bind fst snd]; try (intro H; discriminate H).
  destruct (bindFields_Ok_inv _ _ _ _ _ _ _ Hfs) as (rs & Hall & Hvs & Hd).
  simpl in Hd. subst d vs. exists rs. split; [exact Hall|].
  destruct (existsb snd rs); cbn [typ val] in H.
  - rewrite (rtype_eqb_refl (StructOf fs)) in H. now inversion H.
  - now inversion H.
Qed.

(** ** Unexported fields *)

Lemma genFields_filter_exported P prefix fs :
  forall out,
    genFields P prefix fs out = genFields P prefix (filter exported fs) out.
Proof.
  induction fs as [|sf rest IH]; intro out; simpl; [reflexivity|].
  destruct (exported sf) eqn:He; simpl.
  - destruct (genField P (genFlagsForStruct P) prefix sf out); simpl; auto.
  - unfold genField. unfold exported in He. rewrite He. simpl. apply IH.
Qed.

(** ** Errors while binding *)

Lemma checked_fails {A} msg (r : A * option error) e :
  snd r = Some e -> checked msg r = Err (wrapError msg e).
Proof. destruct r as [a o]; simpl; intros ->; reflexivity. Qed.

Lemma eqb_nonempty s : s <> "" -> String.eqb s "" = false.
Proof. intro H. now apply String.eqb_neq. Qed.

Lemma elementFails_sliceElem P sf s t e :
  elementFails P sf s t e -> sliceElem P sf t s = Err e.
Proof.
  intros [e0 Hs He | k e0 Hk He | k e0 Hk He | k e0 Hk He | e0 Hs He | e0 Hs He];
    unfold sliceElem.
  - simpl. now rewrite (eqb_nonempty _ Hs), (checked_fails _ _ _ He).
  - destruct k; try discriminate; simpl; now rewrite (checked_fails _ _ _ He).
  - destruct k; try discriminate; simpl; now rewrite (checked_fails _ _ _ He).
  - destruct Hk; subst k; simpl; now rewrite (checked_fails _ _ _ He).
  - simpl. now rewrite (eqb_nonempty _ Hs), (checked_fails _ _ _ He).
  - simpl. now rewrite (eqb_nonempty _ Hs), (checked_fails _ _ _ He).
Qed.

Lemma sliceLoop_abort P sf t before s after e :
  Forall (fun s' => exists r, sliceElem P sf t s' = Ok r) before ->
  sliceElem P sf t s = Err e ->
  forall out, sliceLoop P sf t (before ++ s :: after) out = Err e.
Proof.
  intros Hb Hs. induction Hb as [|s' before [r Hr] _ IH]; intro out; simpl.
  - now rewrite Hs.
  - rewrite Hr. simpl. destruct r; apply IH.
Qed.

Lemma setSliceField_abort P ctx name sf t before s after e fld :
  Typ sf = SliceOf t ->
  cli.StringSlice ctx name = (before ++ s :: after)%list ->
  Forall (fun s' => exists r, sliceElem P sf t s' = Ok r) before ->
  sliceElem P sf t s = Err e ->
  setSliceField P ctx name sf fld = Err e.
Proof.
  intros Ht Hraw Hb Hs. unfold setSliceField. rewrite Hraw, Ht.
  assert (E : sliceLoop P sf t (before ++ s :: after) [] = Err e)
    by now apply sliceLoop_abort.
  destruct (before ++ s :: after)%list eqn:Hl.
  - destruct before; discriminate.
  - cbn [Elem bind]. now rewrite E.
Qed.

Lemma setFieldValue_SliceOf P ctx name sf t fld :
  Typ sf = SliceOf t ->
  setFieldValue P ctx name sf fld = setSliceField P ctx name sf fld.
Proof. unfold setFieldValue. intros ->. reflexivity. Qed.

Lemma parseFails_setFieldValue P ctx name sf e fld :
  parseFails P ctx name sf e -> setFieldValue P ctx name sf fld = Err e.
Proof.
  intros [e0 Ht Hs He | e0 Ht Hs He | e0 Ht Hs He | t before s after e0 Ht Hraw Hb Hf].
  - unfold setFieldValue. rewrite Ht. simpl.
    now rewrite (eqb_nonempty _ Hs), (checked_fails _ _ _ He).
  - unfold setFieldValue. rewrite Ht. simpl.
    now rewrite (eqb_nonempty _ Hs), (checked_fails _ _ _ He).
  - unfold setFieldValue. rewrite Ht. simpl.
    now rewrite (eqb_nonempty _ Hs), (checked_fails _ _ _ He).
  - rewrite (setFieldValue_SliceOf _ _ _ _ _ _ Ht).
    eapply setSliceField_abort; eauto using elementFails_sliceElem.
Qed.

Lemma parseFails_leaf P ctx name sf e :
  parseFails P ctx name sf e -> isStructLike (Typ sf) = false.
Proof.
  intros [? Ht | ? Ht | ? Ht | ? ? ? ? ? Ht]; unfold isStructLike;
    rewrite Ht; reflexivity.
Qed.

(** An error of [setFieldValue] on an exported leaf field that is not
    passed over ends [Bind] with that error under the field's name, and
    the destination is as it was. *)
Lemma Bind_abort P ctx pre sf post old r e :
  exported sf = true -> isStructLike (Typ sf) = false ->
  bindStruct P ctx (StructOf pre) "" = Ok r ->
  cli.IsSet ctx (fst (boundName "" sf)) = true \/ omitEmptyOf sf = false ->
  (forall fld, setFieldValue P ctx (fst (boundName "" sf)) sf fld = Err e) ->
  Bind P ctx (addressOf (StructOf (pre ++ sf :: post)) old)
  = (addressOf (StructOf (pre ++ sf :: post)) old,
     Err (wrapError ("set field " ++ Name sf ++ " value: ") e)).
Proof.
  intros He Hl Hpre Hskip Hset.
  rewrite Bind_addressOf.
  erewrite bindStruct_abort; [reflexivity | exact Hpre |].
  rewrite (bindField_leaf _ _ _ _ _ He Hl).
  replace (negb (cli.IsSet ctx (fst (boundName "" sf))) && omitEmptyOf sf)
    with false by (destruct Hskip as [-> | ->]; [reflexivity | now rewrite andb_false_r]).
  now rewrite Hset.
Qed.

Lemma isStructLike_StructOf t gs :
  unreferenceType t = StructOf gs -> isStructLike t = true.
Proof. unfold isStructLike. now intros ->. Qed.

(** An error of [setFieldValue] on a leaf field that [bindStruct] meets
    and does not pass over comes back under the field's name and the
    names of the struct fields descended into. *)
Lemma located_abort P ctx sf0 prefix fs path name e :
  located P ctx sf0 prefix fs path name ->
  isStructLike (Typ sf0) = false ->
  cli.IsSet ctx name = true \/ omitEmptyOf sf0 = false ->
  (forall fld, setFieldValue P ctx name sf0 fld = Err e) ->
  bindStruct P ctx (StructOf fs) prefix = Err (fieldError path (Name sf0) e).
Proof.
  induction 1 as [prefix pre post r He Hpre
                 | prefix pre sf post r gs path name He Hpre Hgs Hanon _ IH];
    intros Hl Hskip Hset.
  - eapply bindStruct_abort; [exact Hpre|].
    rewrite (bindField_leaf _ _ _ _ _ He Hl).
    replace (negb (cli.IsSet ctx (fst (boundName prefix sf0))) && omitEmptyOf sf0)
      with false
      by (destruct Hskip as [-> | ->]; [reflexivity | now rewrite andb_false_r]).
    now rewrite Hset.
  - eapply bindStruct_abort; [exact Hpre|].
    unfold bindField. unfold exported in He.
    rewrite He, (isStructLike_StructOf _ _ Hgs).
    destruct (boundName prefix sf) as [nm om]. cbn [negb].
    assert (Hpfx : (if negb (Anonymous sf)
                    then Ok (prefix ++ Get (Tag sf) tagCLIPrefix)
                    else if negb (String.eqb (Get (Tag sf) tagCLI) "")
                         then Err (errorString ("embedded struct " ++ Name sf
                                                ++ " has cli tag, but unsupported"))
                         else Ok prefix)
                   = Ok (nestedPrefix prefix sf)).
    { unfold nestedPrefix. destruct (Anonymous sf); cbn [negb]; [|reflexivity].
      now rewrite (Hanon eq_refl). }
    rewrite Hpfx. cbn [bind].
    rewrite bindStruct_unreferenceType, Hgs, (IH Hl Hskip Hset). reflexivity.
Qed.


Lemma Bind_Err P ctx fs old e :
  bindStruct P ctx (StructOf fs) "" = Err e ->
  Bind P ctx (addressOf (StructOf fs) old) = (addressOf (StructOf fs) old, Err e).
Proof. intro H. now rewrite Bind_addressOf, H. Qed.

(** C4, as the code has it.  Let [bindStruct] meet the exported field
    [sf], a field of the destination struct or of a struct nested in it
    at any depth, the fields before it on the way binding without error,
    and let [sf] not be passed over.  When its flag value fails semantic
    parsing (a duration, timestamp or identifier, the field being of that
    type or a pointer to it, or an element of a sequence), [Bind] ends
    with the parse error wrapped under the field's name, [set field N
    value: ...], and under [bind substruct S: ...] for each struct field
    descended into, whatever fields follow; the destination is left as it
    was. *)
Theorem parse_error_aborts_Bind (P : Parsers) (ctx : cli.Command)
        (fs : list StructField) (sf : StructField) (path : list string)
        (name : string) (old : data) (e : error) :
  located P ctx sf "" fs path name ->
  cli.IsSet ctx name = true \/ omitEmptyOf sf = false ->
  parseFails P ctx name sf e ->
  Bind P ctx (addressOf (StructOf fs) old)
  = (addressOf (StructOf fs) old, Err (fieldError path (Name sf) e)).
Proof.
  intros Hloc Hskip Hfail. apply Bind_Err.
  eapply located_abort; eauto using parseFails_leaf, parseFails_setFieldValue.
Qed.

Lemma parse_error_aborts_Bind_witness :
  let D := field "D" (PointerTo Duration) [("cli", "d")] in
  let e := wrapError "parse duration: " (libError "time.ParseDuration" "abc") in
  let old := VStruct [VString "old"; VPtr None] in
  located someParsers commandNested D "" Nested ["Sub"] "sub.d"
  /\ parseFails someParsers commandNested "sub.d" D e
  /\ Bind someParsers commandNested (addressOf (StructOf Nested) old)
     = (addressOf (StructOf Nested) old,
        Err (wrapError "bind substruct Sub: "
               (wrapError "set field D value: " e))).
Proof.
  intros D e old.
  assert (Hloc : located someParsers commandNested D "" Nested ["Sub"] "sub.d").
  { apply (located_under someParsers commandNested D ""
             [field "A" (Plain String) [("cli", "a")]]
             (field "Sub" (PointerTo (StructOf Inner)) [("cliPrefix", "sub.")])
             []
             (Some (mkValue (StructOf [field "A" (Plain String) [("cli", "a")]])
                            (VStruct [VString "x"])))
             Inner [] "sub.d").
    - reflexivity.
    - vm_compute. reflexivity.
    - reflexivity.
    - intro H. discriminate H.
    - apply (located_here someParsers commandNested D "sub." []
               [field "M" (SliceOf (SliceOf (Plain String))) [("cli", "m")]] None).
      + reflexivity.
      + vm_compute. reflexivity. }
  assert (Hfail : parseFails someParsers commandNested "sub.d" D e).
  { apply parseFails_duration.
    - reflexivity.
    - vm_compute. intro H. discriminate H.
    - vm_compute. reflexivity. }
  split; [exact Hloc|]. split; [exact Hfail|].
  apply (parse_error_aborts_Bind someParsers commandNested Nested D ["Sub"]
           "sub.d" old e Hloc).
  - left. vm_compute. reflexivity.
  - exact Hfail.
Defined.

(** C4 as stated fails: with [--a x --d abc] the loop assigns ["x"] to
    [A] before the duration fails to parse, yet after the failed call the
    destination still holds what it held, [A] included. *)
Lemma failed_Bind_keeps_no_partial_assignment :
  bindStruct someParsers commandJob
    (StructOf [field "A" (Plain String) [("cli", "a")]]) ""
  = Ok (Some (mkValue (StructOf [field "A" (Plain String) [("cli", "a")]])
                      (VStruct [VString "x"])))
  /\ Bind someParsers commandJob (addressOf Job (VStruct [VString "old"; VInt 5]))
     = (addressOf Job (VStruct [VString "old"; VInt 5]),
        Err (wrapError "set field D value: "
               (wrapError "parse duration: "
                  (libError "time.ParseDuration" "abc"))))
  /\ VString "old" <> VString "x".
Proof.
  split; [|split].
  - vm_compute. reflexivity.
  - vm_compute. reflexivity.
  - intro H. discriminate H.
Qed.

(** ** Sequences of sequences *)






(** ** Elements of a sequence *)

(** C7 at [--d 1s --d "" --d 2s --b maybe], for [D []time.Duration] and
    [B []bool]: the empty string, which the scalar rule turns into the
    zero duration, is dropped from the sequence, and the string that is
    no boolean becomes [false] without an error. *)
Theorem empty_and_boolean_elements :
  Bind someParsers commandSeqs (addressOf Seqs (zero Seqs))
  = (addressOf Seqs
       (VStruct [VSlice (Some [VInt 1000000000; VInt 2000000000]);
                 VSlice (Some [VBool false])]),
     Ok tt)
  /\ snd (strconv.ParseBool "maybe") <> None
  /\ setFieldValue someParsers (cli.parsed []) "d"
       (field "D" Duration [("cli", "d")]) (NewElem Duration)
     = Ok (mkValue Duration (VInt 0)).
Proof.
  split; [|split].
  - vm_compute. reflexivity.
  - vm_compute. intro H. discriminate H.
  - vm_compute. reflexivity.
Qed.

(** ** The round trip *)

Lemma existsb_eqb_In name (l : list string) :
  existsb (String.eqb name) l = true <-> In name l.
Proof.
  rewrite existsb_exists. split.
  - intros (x & Hx & E). apply String.eqb_eq in E. now subst.
  - intro H. exists name. split; [exact H | apply String.eqb_refl].
Qed.

Lemma lookupFlag_found pre e es name :
  ~ In name (allNames pre) -> In name (cli.Names (fst e)) ->
  cli.lookupFlag (pre ++ e :: es) name = Some e.
Proof.
  intros Hpre He. induction pre as [|a pre IH]; cbn [app cli.lookupFlag].
  - now rewrite (proj2 (existsb_eqb_In _ _) He).
  - destruct (existsb (String.eqb name) (cli.Names (fst a))) eqn:E.
    + exfalso. apply Hpre. unfold allNames. cbn [flat_map].
      apply in_or_app. left. now apply existsb_eqb_In.
    + apply IH. intro H. apply Hpre. unfold allNames. cbn [flat_map].
      apply in_or_app. right. exact H.
Qed.

Lemma parsed_reads set name f raw :
  cli.lookupFlag set name = Some (f, Some raw) ->
  cli.IsSet (cli.parsed set) name = true /\ reads (cli.parsed set) name raw.
Proof.
  intro H. unfold cli.parsed, reads. simpl. rewrite H.
  split; [reflexivity | destruct raw; reflexivity].
Qed.

Lemma NoDup_app_not_in {A} (l1 l2 : list A) x :
  NoDup (l1 ++ l2) -> In x l2 -> ~ In x l1.
Proof.
  induction l1 as [|a l1 IH]; simpl; intros Hnd Hx; [tauto|].
  inversion Hnd as [|? ? Hna Hnd']; subst. intros [-> | H].
  - apply Hna. apply in_or_app. now right.
  - exact (IH Hnd' Hx H).
Qed.

Lemma wrapSigned_small w n :
  (0 < w)%Z -> (- 2 ^ (w - 1) <= n < 2 ^ (w - 1))%Z -> wrapSigned w n = n.
Proof.
  intros Hw Hn. unfold wrapSigned.
  assert (E : (2 ^ w = 2 * 2 ^ (w - 1))%Z).
  { rewrite <- Z.pow_succ_r by lia. f_equal. lia. }
  rewrite Z.mod_small by lia. lia.
Qed.

Lemma wrapUnsigned_small w n :
  (0 <= n < 2 ^ w)%Z -> wrapUnsigned w n = n.
Proof. intro Hn. unfold wrapUnsigned. now apply Z.mod_small. Qed.

Lemma bits_pos k : (0 < bits k)%Z.
Proof. destruct k; simpl; lia. Qed.

Lemma encodes_leaf P sf raw v : encodes P sf raw v -> isStructLike (Typ sf) = false.
Proof.
  intros [b Ht | k n Ht | k n Ht | x Ht | x Ht | s Ht | s d Ht | s t Ht | s u Ht];
    rewrite Ht; reflexivity.
Qed.

(** The flag generated for a field and the binder agree on the name,
    and the flag is of the type of the value supplied. *)
Lemma leafFlag_encodes P prefix sf raw v :
  encodes P sf raw v ->
  exists f, leafFlag P prefix sf = Some f
            /\ cli.Name f = fst (boundName prefix sf)
            /\ sameFlagType (cli.Value f) raw.
Proof.
  intro H. unfold leafFlag, boundName.
  destruct (parseNamesWithOptions (Get (Tag sf) tagCLI)) as [[name al] om].
  destruct H as [b Ht | k n Ht Hk | k n Ht Hk | x Ht | x Ht | s Ht
                 | s d Ht | s t Ht | s u Ht];
    rewrite Ht; try (destruct k; try discriminate Hk);
    simpl; eexists; repeat split.
Qed.

(** What [setFieldValue] stores for a supplied value. *)
Lemma setFieldValue_encodes P ctx name sf raw v :
  encodes P sf raw v -> reads ctx name raw ->
  setFieldValue P ctx name sf (unreferenceValue (NewElem (Typ sf)))
  = Ok (mkValue (Typ sf) v).
Proof.
  intros H Hr. unfold setFieldValue.
  destruct H as [b Ht | k n Ht Hk Hn | k n Ht Hk Hn | x Ht | x Ht Hx | s Ht
                 | s d Ht Hs Hd | s t Ht Hs Hp | s u Ht Hs Hu];
    rewrite Ht; simpl in Hr.
  - simpl. now rewrite Hr.
  - destruct k; try discriminate Hk; simpl; rewrite Hr;
      unfold castAndSetInt, SetInt; simpl;
      rewrite wrapSigned_small by (simpl in Hn |- *; lia); reflexivity.
  - destruct k; try discriminate Hk; simpl; rewrite Hr;
      unfold castAndSetUint, SetUint; simpl;
      rewrite wrapUnsigned_small by (simpl in Hn |- *; lia); reflexivity.
  - simpl. now rewrite Hr.
  - simpl. unfold SetFloat. simpl. now rewrite Hr, Hx.
  - simpl. now rewrite Hr.
  - simpl. rewrite Hr, (eqb_nonempty _ Hs), Hd. reflexivity.
  - simpl. rewrite Hr, (eqb_nonempty _ Hs), Hp. reflexivity.
  - simpl. rewrite Hr, (eqb_nonempty _ Hs), Hu. reflexivity.
Qed.

Lemma storeThrough_scalar P sf raw v fld :
  encodes P sf raw v ->
  val (storeThrough (NewElem (Typ sf)) fld) = val fld.
Proof.
  intros [b Ht | k n Ht Hk _ | k n Ht Hk _ | x Ht | x Ht _ | s Ht
          | s d Ht _ _ | s t Ht _ _ | s u Ht _ _];
    rewrite Ht; reflexivity.
Qed.

Lemma bindField_encodes P set rec sf raw v f :
  exported sf = true -> encodes P sf raw v ->
  cli.lookupFlag set (fst (boundName "" sf)) = Some (f, Some raw) ->
  bindField P (cli.parsed set) rec "" sf = Ok (v, true).
Proof.
  intros He Henc Hl.
  destruct (parsed_reads _ _ _ _ Hl) as [Hset Hreads].
  rewrite (bindField_leaf _ _ _ _ _ He (encodes_leaf _ _ _ _ Henc)), Hset.
  cbn [negb andb].
  rewrite (setFieldValue_encodes _ _ _ _ _ _ Henc Hreads).
  cbn [wrapping bind].
  now rewrite (storeThrough_scalar _ _ _ _ _ Henc).
Qed.

Lemma genField_encodes P rec sf raw v out f :
  exported sf = true -> encodes P sf raw v -> leafFlag P "" sf = Some f ->
  genField P rec "" sf out = Ok (out ++ [f])%list.
Proof.
  intros He Henc Hf. unfold genField. unfold exported in He.
  rewrite He, (encodes_leaf _ _ _ _ Henc), Hf. simpl.
  destruct (parseNamesWithOptions (Get (Tag sf) tagCLI)) as [[name al] om].
  now rewrite !andb_false_r.
Qed.

Lemma genFields_supplies P fs raws vs :
  supplies P fs raws vs ->
  forall out, genFields P "" fs out = Ok (out ++ flagsFor P fs)%list.
Proof.
  induction 1 as [|sf fs raws vs Hu _ IH | sf fs raw raws v vs He Henc _ IH];
    intro out; simpl.
  - now rewrite app_nil_r.
  - unfold genField, flagsFor. cbn [flat_map]. unfold exported in Hu.
    rewrite Hu. simpl. unfold exported. rewrite Hu. apply IH.
  - destruct (leafFlag_encodes P "" sf raw v Henc) as (f & Hf & _).
    rewrite (genField_encodes _ _ _ _ _ _ _ He Henc Hf). simpl.
    rewrite IH. unfold flagsFor. cbn [flat_map]. rewrite He, Hf.
    now rewrite <- app_assoc.
Qed.

Lemma flagsFor_supplies P fs raws vs :
  supplies P fs raws vs ->
  Forall2 (fun f raw => sameFlagType (cli.Value f) raw) (flagsFor P fs) raws.
Proof.
  induction 1 as [|sf fs raws vs Hu _ IH | sf fs raw raws v vs He Henc _ IH];
    unfold flagsFor; cbn [flat_map].
  - constructor.
  - rewrite Hu. exact IH.
  - destruct (leafFlag_encodes P "" sf raw v Henc) as (f & Hf & _ & Hty).
    rewrite He, Hf. constructor; assumption.
Qed.

Lemma allNames_combine (fl : list cli.Flag) (raws : list cli.FlagValue) :
  List.length fl = List.length raws ->
  allNames (combine fl (map Some raws)) = flat_map cli.Names fl.
Proof.
  revert raws. induction fl as [|f fl IH]; intros [|raw raws] H;
    try discriminate; [reflexivity|].
  unfold allNames in *. simpl. f_equal. f_equal. apply IH.
  now injection H.
Qed.

Lemma allNames_app pre es : allNames (pre ++ es) = (allNames pre ++ allNames es)%list.
Proof. unfold allNames. apply flat_map_app. Qed.

(** The loop of [bindStruct] over fields whose flags are the entries
    that follow [pre] in the command. *)
Lemma bindFields_supplies P fs raws vs :
  supplies P fs raws vs ->
  forall pre d,
    NoDup (allNames (pre ++ combine (flagsFor P fs) (map Some raws))) ->
    bindFields P (cli.parsed (pre ++ combine (flagsFor P fs) (map Some raws)))
               "" fs d
    = Ok (vs, d || existsb exported fs).
Proof.
  induction 1 as [|sf fs raws vs Hu _ IH | sf fs raw raws v vs He Henc _ IH];
    intros pre d Hnd.
  - simpl. now rewrite orb_false_r.
  - assert (E : flagsFor P (sf :: fs) = flagsFor P fs)
      by (unfold flagsFor; cbn [flat_map]; now rewrite Hu).
    rewrite E in *. cbn [bindFields existsb]. rewrite Hu.
    unfold bindField at 1. unfold exported in Hu. rewrite Hu.
    cbn [negb bind fst snd NewElem val]. rewrite (IH pre _ Hnd).
    cbn [bind fst snd]. now rewrite orb_false_r.
  - destruct (leafFlag_encodes P "" sf raw v Henc) as (f & Hf & Hname & _).
    assert (E : flagsFor P (sf :: fs) = f :: flagsFor P fs)
      by (unfold flagsFor; cbn [flat_map]; now rewrite He, Hf).
    rewrite E in *. cbn [combine map] in *.
    set (es := combine (flagsFor P fs) (map Some raws)) in *.
    assert (Hl : cli.lookupFlag (pre ++ (f, Some raw) :: es)
                   (fst (boundName "" sf)) = Some (f, Some raw)).
    { rewrite allNames_app in Hnd. apply lookupFlag_found.
      - eapply NoDup_app_not_in; [exact Hnd|].
        unfold allNames. cbn [flat_map fst]. apply in_or_app. left.
        rewrite <- Hname. left. reflexivity.
      - rewrite <- Hname. left. reflexivity. }
    cbn [bindFields existsb]. rewrite He.
    rewrite (bindField_encodes _ _ _ _ _ _ _ He Henc Hl).
    cbn [bind fst snd].
    replace (pre ++ (f, Some raw) :: es)%list
      with ((pre ++ [(f, Some raw)]) ++ es)%list in *
      by (now rewrite <- app_assoc).
    rewrite (IH _ _ Hnd). cbn [bind fst snd].
    now rewrite !orb_true_r.
Qed.

Lemma supplies_length P fs raws vs :
  supplies P fs raws vs -> List.length (flagsFor P fs) = List.length raws.
Proof.
  intro H. exact (Forall2_length (flagsFor_supplies _ _ _ _ H)).
Qed.

Lemma supplies_none_exported P fs raws vs :
  supplies P fs raws vs -> existsb exported fs = false ->
  vs = map (fun sf => zero (Typ sf)) fs.
Proof.
  induction 1 as [|sf fs raws vs Hu _ IH | sf fs raw raws v vs He Henc _ IH];
    simpl; intro E.
  - reflexivity.
  - rewrite Hu in E. simpl in E. now rewrite IH.
  - rewrite He in E. discriminate E.
Qed.

(** C1, as the code has it.  Take a struct type, for each of its
    exported fields a flag value that stands for contents of the field,
    and the flags generated for the type.  There is one flag for each
    value, of the same flag type; if the names and aliases of the flags
    are pairwise distinct, [Bind] on the command holding these values and
    a fresh destination leaves in the destination exactly the contents
    supplied (and the zero value in the unexported fields). *)
Theorem round_trip (P : Parsers) (fs : list StructField)
        (raws : list cli.FlagValue) (vs : list data) (flags : list cli.Flag) :
  supplies P fs raws vs ->
  FlagsFromStruct P (Some (NewElem (StructOf fs))) = Ok flags ->
  NoDup (flat_map cli.Names flags) ->
  Forall2 (fun f raw => sameFlagType (cli.Value f) raw) flags raws
  /\ Bind P (cli.parsed (combine flags (map Some raws)))
          (addressOf (StructOf fs) (zero (StructOf fs)))
     = (addressOf (StructOf fs) (VStruct vs), Ok tt).
Proof.
  intros Hs Hgen Hnd.
  unfold FlagsFromStruct in Hgen. cbn [typ NewElem unreferenceType kind Kind_eqb negb] in Hgen.
  rewrite genFlagsForStruct_StructOf, (genFields_supplies _ _ _ _ Hs) in Hgen.
  cbn [app] in Hgen. injection Hgen as <-.
  split; [exact (flagsFor_supplies _ _ _ _ Hs)|].
  rewrite <- (allNames_combine _ _ (supplies_length _ _ _ _ Hs)) in Hnd.
  rewrite Bind_addressOf, bindStruct_StructOf.
  pose proof (bindFields_supplies _ _ _ _ Hs [] false Hnd) as Hloop.
  cbn [app] in Hloop. rewrite Hloop.
  cbn [bind fst snd orb].
  destruct (existsb exported fs) eqn:E.
  - cbn [typ val]. now rewrite (rtype_eqb_refl (StructOf fs)).
  - rewrite (supplies_none_exported _ _ _ _ Hs E). reflexivity.
Qed.

Lemma round_trip_witness :
  supplies someParsers Mixed MixedValues
    [VString "ann"; VInt (-7); VString ""; VInt 250000000; VBool true]
  /\ FlagsFromStruct someParsers (Some (NewElem (StructOf Mixed))) = Ok MixedFlags
  /\ Forall2 (fun f raw => sameFlagType (cli.Value f) raw) MixedFlags MixedValues
  /\ Bind someParsers (cli.parsed (combine MixedFlags (map Some MixedValues)))
          (addressOf (StructOf Mixed) (zero (StructOf Mixed)))
     = (addressOf (StructOf Mixed)
          (VStruct [VString "ann"; VInt (-7); VString ""; VInt 250000000;
                    VBool true]),
        Ok tt).
Proof.
  assert (Hs : supplies someParsers Mixed MixedValues
                 [VString "ann"; VInt (-7); VString ""; VInt 250000000; VBool true]).
  { apply supplies_exported; [reflexivity | now apply encodes_string |].
    apply supplies_exported;
      [reflexivity
      | apply (encodes_int _ _ Int8); [reflexivity | reflexivity | simpl; lia] |].
    apply (supplies_unexported someParsers
             (mkStructField "secret" "main" (Plain String) [("cli", "name")] false));
      [reflexivity|].
    apply supplies_exported;
      [reflexivity
      | apply encodes_duration;
        [reflexivity | intro H; discriminate H | reflexivity] |].
    apply supplies_exported; [reflexivity | now apply encodes_bool |].
    apply supplies_nil. }
  assert (Hg : FlagsFromStruct someParsers (Some (NewElem (StructOf Mixed)))
               = Ok MixedFlags) by (vm_compute; reflexivity).
  split; [exact Hs|]. split; [exact Hg|].
  apply (round_trip someParsers Mixed MixedValues _ MixedFlags Hs Hg).
  unfold MixedFlags. simpl.
  repeat (constructor; [simpl; intuition discriminate|]). constructor.
Defined.

(** C1 as stated fails: for a field of type [int8] the generated flag
    is a 64-bit integer flag, and the value 300 supplied for it comes
    back as 44. *)
Lemma narrow_integer_does_not_round_trip :
  FlagsFromStruct someParsers (Some (NewElem Small))
  = Ok [cli.mkFlag "n" [] "" (cli.Int64Value 0) "" true]
  /\ Bind someParsers
       (cli.parsed [(cli.mkFlag "n" [] "" (cli.Int64Value 0) "" true,
                     Some (cli.Int64Value 300))])
       (addressOf Small (zero Small))
     = (addressOf Small (VStruct [VInt 44]), Ok tt)
  /\ VInt 44 <> VInt 300.
Proof.
  split; [|split].
  - vm_compute. reflexivity.
  - vm_compute. reflexivity.
  - intro H. discriminate H.
Qed.

(** ** Names and prefixes *)

Lemma append_assoc (a b c : string) : (a ++ b) ++ c = a ++ (b ++ c).
Proof. induction a as [|x a IH]; simpl; [reflexivity | now rewrite IH]. Qed.

Lemma boundName_prefix prefix sf :
  fst (boundName prefix sf) = prefix ++ fst (boundName "" sf).
Proof.
  unfold boundName.
  destruct (parseNamesWithOptions (Get (Tag sf) tagCLI)) as [[name al] om].
  reflexivity.
Qed.

Lemma leafFlag_Name P prefix sf f :
  leafFlag P prefix sf = Some f ->
  cli.Name f = fst (boundName prefix sf)
  /\ cli.Name f = prefix ++ fst (boundName "" sf).
Proof.
  intro H. rewrite <- boundName_prefix.
  enough (E : cli.Name f = fst (boundName prefix sf)) by (split; exact E).
  revert H. unfold leafFlag, boundName.
  destruct (parseNamesWithOptions (Get (Tag sf) tagCLI)) as [[name al] om]; simpl.
  repeat match goal with
         | |- (if ?c then _ else _) = Some _ -> _ => destruct c
         end; intro H; inversion H; reflexivity.
Qed.

Lemma leafFlag_leaf P prefix sf f :
  leafFlag P prefix sf = Some f -> isStructLike (Typ sf) = false.
Proof.
  unfold leafFlag, isStructLike.
  destruct (parseNamesWithOptions (Get (Tag sf) tagCLI)) as [[name al] om].
  destruct (Typ sf) as [k| | | |e|e|fs]; simpl; try reflexivity.
  - destruct (unreferenceType e) as [k| | | |e'|e'|fs]; simpl;
      try reflexivity; discriminate.
  - discriminate.
Qed.

(** What generation appends for a struct type does not depend on the
    flags already collected, and every name in it starts with the
    inherited prefix. *)
Lemma genFlagsForStruct_appends P (t : rtype) :
  forall fs, unreferenceType t = StructOf fs ->
  forall prefix, exists new,
    (forall out, genFlagsForStruct P (StructOf fs) prefix out = Ok (out ++ new)%list)
    /\ Forall (fun f => exists rest, cli.Name f = prefix ++ rest) new.
Proof.
  induction t as [k| | | |e IH|e IH|fs0 IH] using rtype_nested_ind;
    intros fs Hfs; simpl in Hfs; try discriminate; auto.
  injection Hfs as <-. intro prefix.
  enough (Hloop : forall l, (forall sf, In sf l -> In sf fs0) ->
            exists new,
              (forall out, genFields P prefix l out = Ok (out ++ new)%list)
              /\ Forall (fun f => exists rest, cli.Name f = prefix ++ rest) new).
  { destruct (Hloop fs0 (fun _ H => H)) as (new & Hnew & Hall).
    exists new. split; [|exact Hall].
    intro out. rewrite genFlagsForStruct_StructOf. apply Hnew. }
  induction l as [|sf rest IHl]; intro Hincl.
  - exists []. split; [intro out; simpl; now rewrite app_nil_r | constructor].
  - assert (Hsf : In sf fs0) by (apply Hincl; left; reflexivity).
    assert (Hrest : forall x, In x rest -> In x fs0)
      by (intros x Hx; apply Hincl; right; exact Hx).
    assert (Hstep : exists new,
               (forall out, genField P (genFlagsForStruct P) prefix sf out
                            = Ok (out ++ new)%list)
               /\ Forall (fun f => exists rest, cli.Name f = prefix ++ rest) new).
    { pose proof (proj1 (Forall_forall _ _) IH sf Hsf) as IHsf.
      assert (Hnone : exists new : list cli.Flag,
                 (forall out : list cli.Flag, Ok out = Ok (out ++ new)%list)
                 /\ Forall (fun f => exists rest, cli.Name f = prefix ++ rest) new).
      { exists []. split; [intro out; now rewrite app_nil_r | constructor]. }
      assert (Hleaf : exists new,
                 (forall out,
                     match leafFlag P prefix sf with
                     | Some f => Ok (out ++ [f])%list
                     | None => Ok out
                     end = Ok (out ++ new)%list)
                 /\ Forall (fun f => exists rest, cli.Name f = prefix ++ rest) new).
      { destruct (leafFlag P prefix sf) as [f|] eqn:Hf; [|exact Hnone].
        exists [f]. split; [reflexivity|]. constructor; [|constructor].
        exists (fst (boundName "" sf)).
        exact (proj2 (leafFlag_Name P prefix sf f Hf)). }
      assert (Hrec : forall tag, isStructLike (Typ sf) = true -> exists new,
                 (forall out,
                     genFlagsForStruct P (unreferenceType (Typ sf)) (prefix ++ tag) out
                     = Ok (out ++ new)%list)
                 /\ Forall (fun f => exists rest, cli.Name f = prefix ++ rest) new).
      { intros tag Hs. destruct (isStructLike_inv _ Hs) as [gs Hgs].
        destruct (IHsf gs Hgs (prefix ++ tag)) as (new & Hnew & Hall).
        exists new. rewrite Hgs. split; [exact Hnew|].
        eapply Forall_impl; [|exact Hall].
        intros f [r Hr]. exists (tag ++ r). now rewrite Hr, append_assoc. }
      unfold genField. destruct (String.eqb (PkgPath sf) "") eqn:Hexp; simpl;
        [|exact Hnone].
      destruct (isStructLike (Typ sf)) eqn:Hs; simpl.
      - destruct (String.eqb (Get (Tag sf) tagCLIPrefix) ""); simpl.
        + destruct (parseNamesWithOptions (Get (Tag sf) tagCLI)) as [[name al] om].
          destruct (String.eqb name "" && (Anonymous sf && true)) eqn:Hflat.
          * destruct (Hrec "" eq_refl) as (new & Hnew & Hall).
            exists new. split; [|exact Hall].
            intro out. rewrite <- Hnew. f_equal.
            clear. induction prefix as [|c p IHp]; simpl; [reflexivity | now rewrite <- IHp].
          * exact Hleaf.
        + apply Hrec; reflexivity.
      - destruct (parseNamesWithOptions (Get (Tag sf) tagCLI)) as [[name al] om].
        rewrite !andb_false_r. simpl. exact Hleaf. }
    destruct Hstep as (new1 & Hnew1 & Hall1).
    destruct (IHl Hrest) as (new2 & Hnew2 & Hall2).
    exists (new1 ++ new2)%list. split.
    + intro out. simpl. rewrite Hnew1. simpl. rewrite Hnew2. now rewrite app_assoc.
    + apply Forall_app; auto.
Qed.

(** X2.  Generation for a struct type under an inherited prefix only
    appends to the flags collected so far, what it appends is the same
    whatever was collected, and the name of every flag it appends starts
    with the inherited prefix, however deeply the field is nested. *)
Theorem generation_appends_prefixed_flags (P : Parsers)
        (fs : list StructField) (prefix : string) :
  exists new,
    (forall out,
        genFlagsForStruct P (StructOf fs) prefix out = Ok (out ++ new)%list)
    /\ Forall (fun f => exists rest, cli.Name f = prefix ++ rest) new.
Proof. exact (genFlagsForStruct_appends P (StructOf fs) fs eq_refl prefix). Qed.

(** ** Required flags and skipped fields *)

(** X3.  A field whose generated flag is required is never passed over
    by the binder: whether or not the flag is set, the iteration for the
    field either fails or assigns ([defined] is set). *)
Theorem required_field_is_never_skipped (P : Parsers) (ctx : cli.Command)
        (rec : rtype -> string -> outcome (option Value)) (prefix : string)
        (sf : StructField) (f : cli.Flag) (r : data * bool) :
  exported sf = true ->
  leafFlag P prefix sf = Some f ->
  cli.Required f = true ->
  bindField P ctx rec prefix sf = Ok r ->
  snd r = true.
Proof.
  intros He Hf Hreq Hb.
  rewrite (leafFlag_Required _ _ _ _ Hf) in Hreq.
  apply andb_true_iff in Hreq. destruct Hreq as [Hom _].
  apply negb_true_iff in Hom.
  rewrite (bindField_leaf _ _ _ _ _ He (leafFlag_leaf _ _ _ _ Hf)), Hom,
    andb_false_r in Hb.
  destruct (wrapping ("set field " ++ Name sf ++ " value: ")
              (setFieldValue P ctx (fst (boundName prefix sf)) sf
                 (unreferenceValue (NewElem (Typ sf))))) as [fld| |];
    simpl in Hb; try discriminate.
  now inversion Hb.
Qed.

Lemma required_field_is_never_skipped_witness :
  let sf := field "A" (Plain String) [("cli", "a")] in
  bindField someParsers (cli.parsed []) (bindStruct someParsers (cli.parsed [])) "" sf
  = Ok (VString "", true)
  /\ snd (VString "", true) = true.
Proof.
  intro sf. split; [vm_compute; reflexivity|].
  apply (required_field_is_never_skipped someParsers (cli.parsed [])
           (bindStruct someParsers (cli.parsed [])) "" sf
           (cli.mkFlag "a" [] "" (cli.StringValue "") "" true)).
  - reflexivity.
  - vm_compute. reflexivity.
  - reflexivity.
  - vm_compute. reflexivity.
Defined.

(** ** Kinds without a case *)

(** X4.  A field of a kind that neither [switch] has a case for (a
    complex number, an array, a map, a channel, a function, an interface
    value) gets no flag, and [setFieldValue] returns without an error and
    without touching the field. *)
Theorem kinds_without_a_case_are_ignored (P : Parsers) (ctx : cli.Command)
        (prefix name : string) (sf : StructField) (k : Kind) (fld : Value) :
  Typ sf = Plain k ->
  scalar (Plain k) = false ->
  leafFlag P prefix sf = None
  /\ setFieldValue P ctx name sf fld = Ok fld.
Proof.
  intros Ht Hk. unfold leafFlag, setFieldValue. rewrite Ht.
  destruct (parseNamesWithOptions (Get (Tag sf) tagCLI)) as [[nm al] om].
  destruct k; try discriminate Hk; split; reflexivity.
Qed.

Lemma kinds_without_a_case_are_ignored_witness :
  let sf := field "Labels" (Plain Map) [("cli", "labels")] in
  leafFlag someParsers "" sf = None
  /\ setFieldValue someParsers commandJob "labels" sf (NewElem (Plain Map))
     = Ok (NewElem (Plain Map)).
Proof.
  intro sf.
  apply (kinds_without_a_case_are_ignored someParsers commandJob "" "labels"
           sf Map (NewElem (Plain Map))); reflexivity.
Defined.

(** ** What [bindStruct] returns *)

Lemma bindStruct_typ P ctx t prefix v :
  bindStruct P ctx t prefix = Ok (Some v) ->
  exists fs vs, unreferenceType t = StructOf fs /\ v = mkValue (StructOf fs) (VStruct vs)
                /\ List.length vs = List.length fs.
Proof.
  rewrite bindStruct_unreferenceType.
  destruct (unreferenceType t) as [k| | | |e|e|fs] eqn:Ht; try discriminate.
  - exfalso. clear -Ht. induction t; simpl in Ht; try discriminate; auto.
  - rewrite bindStruct_StructOf.
    destruct (bindFields P ctx prefix fs false) as [[vs d]| |] eqn:Hfs;
      simpl; try discriminate.
    destruct d; intro H; inversion H; subst.
    destruct (bindFields_Ok_inv _ _ _ _ _ _ _ Hfs) as (rs & Hall & Hvs & _).
    exists fs, vs. repeat split. subst vs. rewrite length_map.
    symmetry. exact (Forall2_length Hall).
Qed.

(** X6.  A field of pointer type is never populated: whenever the
    iteration of [bindStruct] for it returns normally, the field is
    still nil, although a flag may have been read for it and [defined]
    set. *)
Theorem pointer_field_stays_nil (P : Parsers) (ctx : cli.Command)
        (prefix : string) (sf : StructField) (e : rtype) (r : data * bool) :
  Typ sf = PointerTo e ->
  bindField P ctx (bindStruct P ctx) prefix sf = Ok r ->
  fst r = VPtr None.
Proof.
  intros Ht. unfold bindField.
  destruct (negb (String.eqb (PkgPath sf) ""));
    [rewrite Ht; intro H; now inversion H|].
  destruct (boundName prefix sf) as [name om].
  destruct (isStructLike (Typ sf)).
  - match goal with |- (pfx <- ?m ;; _) = _ -> _ => destruct m as [pfx| |] end;
      simpl; try discriminate.
    destruct (bindStruct P ctx (Typ sf) pfx) as [[subv|]| |] eqn:Hsub;
      simpl; try discriminate.
    + destruct (bindStruct_typ _ _ _ _ _ Hsub) as (gs & vs & _ & -> & _).
      unfold SetValue. rewrite Ht. simpl. discriminate.
    + rewrite Ht. intro H. now inversion H.
  - destruct (negb (cli.IsSet ctx name) && om);
      [rewrite Ht; intro H; now inversion H|].
    match goal with |- (field <- ?m ;; _) = _ -> _ => destruct m as [fld| |] end;
      simpl; try discriminate.
    rewrite Ht. intro H. now inversion H.
Qed.

Lemma pointer_field_stays_nil_witness :
  let sf := field "Count" (PointerTo (Plain Int)) [("cli", "n")] in
  let ctx := cli.parsed [(cli.mkFlag "n" [] "" (cli.Int64Value 0) "" true,
                          Some (cli.Int64Value 7))] in
  bindField someParsers ctx (bindStruct someParsers ctx) "" sf = Ok (VPtr None, true)
  /\ fst (VPtr None, true) = VPtr None.
Proof.
  intros sf ctx. split; [vm_compute; reflexivity|].
  apply (pointer_field_stays_nil someParsers ctx "" sf (Plain Int)).
  - reflexivity.
  - vm_compute. reflexivity.
Defined.

(** ** Errors of [Bind] *)

Lemma bindField_Err P ctx rec prefix sf e :
  bindField P ctx rec prefix sf = Err e ->
  exported sf = true /\ namesField sf e.
Proof.
  unfold bindField, exported.
  destruct (String.eqb (PkgPath sf) ""); simpl; [|discriminate].
  destruct (boundName prefix sf) as [name om].
  destruct (isStructLike (Typ sf)).
  - destruct (negb (Anonymous sf)); simpl.
    + destruct (rec (Typ sf) _) as [[subv|]| |]; simpl; try discriminate.
      * destruct (SetValue (NewElem (Typ sf)) subv) eqn:Hset; simpl; try discriminate.
        unfold SetValue in Hset.
        destruct (rtype_eqb (typ subv) (typ (NewElem (Typ sf)))); discriminate.
      * intro H. inversion H. split; [reflexivity | constructor].
    + destruct (negb (String.eqb (Get (Tag sf) tagCLI) "")); simpl.
      * intro H. inversion H. split; [reflexivity | constructor].
      * destruct (rec (Typ sf) prefix) as [[subv|]| |]; simpl; try discriminate.
        -- destruct (SetValue (NewElem (Typ sf)) subv) eqn:Hset; simpl; try discriminate.
           unfold SetValue in Hset.
           destruct (rtype_eqb (typ subv) (typ (NewElem (Typ sf)))); discriminate.
        -- intro H. inversion H. split; [reflexivity | constructor].
  - destruct (negb (cli.IsSet ctx name) && om); [discriminate|].
    destruct (setFieldValue P ctx name sf (unreferenceValue (NewElem (Typ sf))));
      simpl; try discriminate.
    intro H. inversion H. split; [reflexivity | constructor].
Qed.

Lemma bindFields_Err P ctx prefix fs :
  forall d e,
    bindFields P ctx prefix fs d = Err e ->
    exists sf, In sf fs /\ exported sf = true /\ namesField sf e.
Proof.
  induction fs as [|sf rest IH]; intros d e H; simpl in H; [discriminate|].
  destruct (bindField P ctx (bindStruct P ctx) prefix sf) as [f| |] eqn:Hf;
    simpl in H; try discriminate.
  - destruct (bindFields P ctx prefix rest (d || snd f)) as [r| |] eqn:Hr;
      simpl in H; try discriminate.
    inversion H; subst.
    destruct (IH _ _ Hr) as (sf' & Hin & Hx). exists sf'. split; [now right | exact Hx].
  - inversion H; subst. exists sf. split; [now left|].
    exact (bindField_Err _ _ _ _ _ _ Hf).
Qed.

(** X7.  Every error that [Bind] returns for the address of a struct
    carries the name of an exported field of that struct, in one of the
    forms [set field N value: ...], [bind substruct N: ...] or [embedded
    struct N has cli tag, but unsupported]; it is never the error for an
    invalid destination. *)
Theorem Bind_error_names_a_field (P : Parsers) (ctx : cli.Command)
        (fs : list StructField) (old : data) (d' : option Value) (e : error) :
  Bind P ctx (addressOf (StructOf fs) old) = (d', Err e) ->
  (exists sf, In sf fs /\ exported sf = true /\ namesField sf e)
  /\ e <> errorString "Bind: dest must be a non-nil pointer to a struct".
Proof.
  rewrite Bind_addressOf, bindStruct_StructOf. intro H.
  assert (Hf : bindFields P ctx "" fs false = Err e).
  { destruct (bindFields P ctx "" fs false) as [[vs d]| |];
      cbn [bind fst snd] in H.
    - destruct d; cbn [typ val] in H.
      + rewrite (rtype_eqb_refl (StructOf fs)) in H. discriminate H.
      + discriminate H.
    - now inversion H.
    - discriminate H. }
  destruct (bindFields_Err _ _ _ _ _ _ Hf) as (sf & Hin & He & Hn).
  split; [exists sf; auto|].
  destruct Hn; intro E; discriminate E.
Qed.

Lemma Bind_error_names_a_field_witness :
  Bind someParsers commandJob (addressOf Job (zero Job))
  = (addressOf Job (zero Job),
     Err (wrapError "set field D value: "
            (wrapError "parse duration: " (libError "time.ParseDuration" "abc"))))
  /\ (exists sf,
         In sf [field "A" (Plain String) [("cli", "a")];
                field "D" Duration [("cli", "d")]]
         /\ exported sf = true
         /\ namesField sf (wrapError "set field D value: "
                              (wrapError "parse duration: "
                                 (libError "time.ParseDuration" "abc"))))
  /\ wrapError "set field D value: "
       (wrapError "parse duration: " (libError "time.ParseDuration" "abc"))
     <> errorString "Bind: dest must be a non-nil pointer to a struct".
Proof.
  split; [vm_compute; reflexivity|].
  apply (Bind_error_names_a_field someParsers commandJob
           [field "A" (Plain String) [("cli", "a")];
            field "D" Duration [("cli", "d")]]
           (zero Job) (addressOf Job (zero Job))).
  vm_compute. reflexivity.
Defined.

(** X8.  [Bind] changes its destination only when it succeeds: after a
    call that returns an error or panics, a destination of any type holds
    what it held. *)
Theorem Bind_failure_leaves_destination (P : Parsers) (ctx : cli.Command)
        (dest d' : option Value) (r : outcome unit) :
  Bind P ctx dest = (d', r) -> r <> Ok tt -> d' = dest.
Proof.
  unfold Bind. intros H Hr.
  destruct dest as [[t d]|]; cbn [typ val] in H; [|now inversion H].
  destruct t as [k| | | |elem|elem|fs]; try (now inversion H).
  destruct d as [| | | | | | |[target|]| | |]; try (now inversion H).
  destruct (bindStruct P ctx (unreferenceType (PointerTo elem)) "") as [[v|]| |];
    try (now inversion H).
  destruct (SetValue (mkValue elem target) v); inversion H; subst; auto.
  now contradiction Hr.
Qed.

Lemma Bind_failure_leaves_destination_witness :
  Bind someParsers commandJob (addressOf (PointerTo Opt) (VPtr None))
  = (addressOf (PointerTo Opt) (VPtr None),
     Panic "reflect.Set: value is not assignable to type")
  /\ addressOf (PointerTo Opt) (VPtr None) = addressOf (PointerTo Opt) (VPtr None).
Proof.
  split; [vm_compute; reflexivity|].
  apply (Bind_failure_leaves_destination someParsers commandJob
           (addressOf (PointerTo Opt) (VPtr None)) _
           (Panic "reflect.Set: value is not assignable to type")).
  - vm_compute. reflexivity.
  - intro H. discriminate H.
Defined.

(** X9.  [Bind] is idempotent on the address of a struct: after a call
    that succeeds, a second call with the same command succeeds and
    leaves the destination as the first one left it. *)
Theorem Bind_twice (P : Parsers) (ctx : cli.Command)
        (fs : list StructField) (old : data) (d' : option Value) :
  Bind P ctx (addressOf (StructOf fs) old) = (d', Ok tt) ->
  Bind P ctx d' = (d', Ok tt).
Proof.
  rewrite Bind_addressOf.
  destruct (bindStruct P ctx (StructOf fs) "") as [[v|]| |] eqn:Hb;
    try (intro H; discriminate H).
  - destruct (rtype_eqb (typ v) (StructOf fs)) eqn:E; intro H; [|discriminate H].
    inversion H; subst. rewrite Bind_addressOf, Hb, E. reflexivity.
  - intro H. inversion H; subst. rewrite Bind_addressOf, Hb. reflexivity.
Qed.

Lemma Bind_twice_witness :
  Bind someParsers commandJob (addressOf Opt (VStruct [VString "old"; VInt 5]))
  = (addressOf Opt (VStruct [VString "x"; VInt 0]), Ok tt)
  /\ Bind someParsers commandJob (addressOf Opt (VStruct [VString "x"; VInt 0]))
     = (addressOf Opt (VStruct [VString "x"; VInt 0]), Ok tt).
Proof.
  split; [vm_compute; reflexivity|].
  apply (Bind_twice someParsers commandJob
           [field "A" (Plain String) [("cli", "a")];
            field "B" (Plain Int) [("cli", "b,omitempty")]]
           (VStruct [VString "old"; VInt 5])).
  vm_compute. reflexivity.
Defined.

Lemma Bind_abort_at P ctx pre sf post old r e :
  bindStruct P ctx (StructOf pre) "" = Ok r ->
  bindField P ctx (bindStruct P ctx) "" sf = Err e ->
  Bind P ctx (addressOf (StructOf (pre ++ sf :: post)) old)
  = (addressOf (StructOf (pre ++ sf :: post)) old, Err e).
Proof.
  intros Hpre Hsf. rewrite Bind_addressOf.
  now rewrite (bindStruct_abort _ _ _ _ _ _ _ _ Hpre Hsf).
Qed.

(** X10.  An exported embedded struct field that carries a [cli] tag
    makes [Bind] fail with an error naming it, whatever the command
    holds, as soon as the fields before it bind without error. *)
Theorem embedded_struct_with_cli_tag (P : Parsers) (ctx : cli.Command)
        (pre post : list StructField) (sf : StructField) (old : data)
        (r : option Value) :
  exported sf = true ->
  Anonymous sf = true ->
  isStructLike (Typ sf) = true ->
  Get (Tag sf) tagCLI <> "" ->
  bindStruct P ctx (StructOf pre) "" = Ok r ->
  Bind P ctx (addressOf (StructOf (pre ++ sf :: post)) old)
  = (addressOf (StructOf (pre ++ sf :: post)) old,
     Err (errorString ("embedded struct " ++ Name sf
                       ++ " has cli tag, but unsupported"))).
Proof.
  intros He Ha Hs Ht Hpre. eapply Bind_abort_at; [exact Hpre|].
  unfold bindField. unfold exported in He. rewrite He, Hs, Ha.
  destruct (boundName "" sf) as [name om].
  rewrite (eqb_nonempty _ Ht). reflexivity.
Qed.

Lemma embedded_struct_with_cli_tag_witness :
  let sf := mkStructField "SubCfg" "" SubCfg [("cli", "sub")] true in
  Bind someParsers commandX (addressOf (StructOf ([] ++ sf :: [])) (VStruct [zero SubCfg]))
  = (addressOf (StructOf ([] ++ sf :: [])) (VStruct [zero SubCfg]),
     Err (errorString "embedded struct SubCfg has cli tag, but unsupported")).
Proof.
  intro sf.
  apply (embedded_struct_with_cli_tag someParsers commandX [] [] sf
           (VStruct [zero SubCfg]) None).
  - reflexivity.
  - reflexivity.
  - reflexivity.
  - intro H. discriminate H.
  - vm_compute. reflexivity.
Defined.

(** ** Sequences of strings *)

Lemma sliceLoop_strings P sf raw :
  forall out,
    sliceLoop P sf (Plain String) raw out = Ok (out ++ map VString raw)%list.
Proof.
  induction raw as [|s raw IH]; intro out; simpl.
  - now rewrite app_nil_r.
  - rewrite IH. now rewrite <- app_assoc.
Qed.

(** X11.  For an exported field of type sequence of strings that is not
    passed over, the iteration of [bindStruct] stores the strings of the
    repeated flag as they are, all of them and in order, empty strings
    included; when the flag holds no string the field stays a nil
    sequence, and [defined] is set all the same. *)
Theorem string_sequence_is_bound_as_given (P : Parsers) (ctx : cli.Command)
        (rec : rtype -> string -> outcome (option Value)) (prefix : string)
        (sf : StructField) :
  exported sf = true ->
  Typ sf = SliceOf (Plain String) ->
  cli.IsSet ctx (fst (boundName prefix sf)) = true \/ omitEmptyOf sf = false ->
  bindField P ctx rec prefix sf
  = Ok (match cli.StringSlice ctx (fst (boundName prefix sf)) with
        | [] => VSlice None
        | raw => VSlice (Some (map VString raw))
        end, true).
Proof.
  intros He Ht Hskip.
  rewrite (bindField_leaf _ _ _ _ _ He) by now rewrite Ht.
  replace (negb (cli.IsSet ctx (fst (boundName prefix sf))) && omitEmptyOf sf)
    with false by (destruct Hskip as [-> | ->]; [reflexivity | now rewrite andb_false_r]).
  rewrite (setFieldValue_SliceOf _ _ _ _ _ _ Ht). unfold setSliceField.
  rewrite Ht.
  destruct (cli.StringSlice ctx (fst (boundName prefix sf))) as [|s raw].
  - reflexivity.
  - cbn [Elem bind]. rewrite sliceLoop_strings. reflexivity.
Qed.

Lemma string_sequence_is_bound_as_given_witness :
  let sf := field "Tags" (SliceOf (Plain String)) [("cli", "d")] in
  bindField someParsers commandSeqs (bindStruct someParsers commandSeqs) "" sf
  = Ok (VSlice (Some [VString "1s"; VString ""; VString "2s"]), true).
Proof.
  intro sf.
  apply (string_sequence_is_bound_as_given someParsers commandSeqs
           (bindStruct someParsers commandSeqs) "" sf).
  - reflexivity.
  - reflexivity.
  - left. vm_compute. reflexivity.
Defined.

(** ** [WithBinding] *)

(** X12.  For a struct type [T], the action [WithBinding] returns calls
    the handler exactly when binding does not fail: with the value
    [bindStruct] built, or with the zero [T] when nothing was assigned.
    When binding returns an error the handler is not called and the
    error comes back wrapped as [bind flags: ...]. *)
Theorem WithBinding_struct (P : Parsers) (Context : Type)
        (fs : list StructField) (fn : Context -> data -> outcome unit)
        (ctx : Context) (c : cli.Command) :
  WithBinding P Context (StructOf fs) fn ctx c
  = match bindStruct P c (StructOf fs) "" with
    | Err e => Err (wrapError "bind flags: " e)
    | Panic msg => Panic msg
    | Ok None => fn ctx (zero (StructOf fs))
    | Ok (Some v) => fn ctx (val v)
    end.
Proof.
  unfold WithBinding. rewrite Bind_addressOf.
  destruct (bindStruct P c (StructOf fs) "") as [[v|]| |] eqn:Hb; try reflexivity.
  destruct (bindStruct_typ _ _ _ _ _ Hb) as (gs & vs & Hgs & -> & _).
  simpl in Hgs. injection Hgs as <-. cbn [typ val].
  rewrite (rtype_eqb_refl (StructOf fs)). reflexivity.
Qed.

(** X13.  For a handler that takes a pointer to a struct, the action
    never hands it a populated value: it calls the handler with a nil
    pointer when nothing was assigned, and panics in [reflect] as soon as
    some field was. *)
Theorem WithBinding_pointer (P : Parsers) (Context : Type)
        (fs : list StructField) (fn : Context -> data -> outcome unit)
        (ctx : Context) (c : cli.Command) :
  WithBinding P Context (PointerTo (StructOf fs)) fn ctx c
  = match bindStruct P c (StructOf fs) "" with
    | Err e => Err (wrapError "bind flags: " e)
    | Panic msg => Panic msg
    | Ok None => fn ctx (VPtr None)
    | Ok (Some _) => Panic "reflect.Set: value is not assignable to type"
    end.
Proof.
  unfold WithBinding, Bind, addressOf. cbn [typ val unreferenceType zero].
  destruct (bindStruct P c (StructOf fs) "") as [[v|]| |] eqn:Hb; try reflexivity.
  destruct (bindStruct_typ _ _ _ _ _ Hb) as (gs & vs & _ & -> & _).
  reflexivity.
Qed.

(** ** Splitting tags and defaults *)

Lemma Split_length s sep :
  List.length (strings.Split s sep) = S (count sep s).
Proof.
  induction s as [|c r IH]; simpl; [reflexivity|].
  destruct (Ascii.eqb c sep); simpl; [now rewrite IH|].
  destruct (strings.Split r sep); simpl in *; [discriminate IH | exact IH].
Qed.

Lemma Split_no_separator s sep :
  Forall (fun p => ~ occurs sep p) (strings.Split s sep).
Proof.
  induction s as [|c r IH]; simpl.
  - constructor; [intros [] | constructor].
  - destruct (Ascii.eqb c sep) eqn:E.
    + constructor; [intros [] | exact IH].
    + destruct (strings.Split r sep) as [|p ps].
      * constructor; [|constructor]. simpl. intros [H | []].
        subst. now rewrite Ascii.eqb_refl in E.
      * inversion IH; subst. constructor; [|assumption].
        simpl. intros [H | H]; [|contradiction].
        subst. now rewrite Ascii.eqb_refl in E.
Qed.

Lemma occurs_trimLeft c s : occurs c (strings.trimLeft s) -> occurs c s.
Proof.
  induction s as [|a r IH]; simpl; [tauto|].
  destruct (strings.isSpace a); simpl; tauto.
Qed.

Lemma occurs_trimRight c s : occurs c (strings.trimRight s) -> occurs c s.
Proof.
  induction s as [|a r IH]; simpl; [tauto|].
  destruct (strings.trimRight r) as [|b r'].
  - destruct (strings.isSpace a); simpl; tauto.
  - simpl in *. tauto.
Qed.

Lemma occurs_TrimSpace c s : occurs c (strings.TrimSpace s) -> occurs c s.
Proof. intro H. now apply occurs_trimLeft, occurs_trimRight. Qed.

Lemma trimLeft_head s :
  strings.trimLeft s = ""
  \/ exists c r, strings.trimLeft s = String.String c r /\ strings.isSpace c = false.
Proof.
  induction s as [|a r IH]; simpl; [now left|].
  destruct (strings.isSpace a) eqn:E; [exact IH|]. right. eauto.
Qed.

Lemma trimRight_head c r :
  strings.isSpace c = false ->
  exists r', strings.trimRight (String.String c r) = String.String c r'.
Proof.
  intro Hc. simpl. destruct (strings.trimRight r); [rewrite Hc|]; eauto.
Qed.

Lemma trimRight_cons a r :
  strings.trimRight (String.String a r)
  = match strings.trimRight r with
    | EmptyString =>
        if strings.isSpace a then EmptyString else String.String a EmptyString
    | String.String b r' => String.String a (String.String b r')
    end.
Proof. simpl. destruct (strings.trimRight r); reflexivity. Qed.

Lemma trimRight_idem s :
  strings.trimRight (strings.trimRight s) = strings.trimRight s.
Proof.
  induction s as [|a r IH]; [reflexivity|].
  rewrite trimRight_cons.
  destruct (strings.trimRight r) as [|b r'] eqn:E.
  - destruct (strings.isSpace a) eqn:Ha; [reflexivity|].
    rewrite trimRight_cons. simpl. now rewrite Ha.
  - rewrite trimRight_cons, IH. reflexivity.
Qed.

Lemma TrimSpace_idem s : strings.TrimSpace (strings.TrimSpace s) = strings.TrimSpace s.
Proof.
  unfold strings.TrimSpace.
  destruct (trimLeft_head s) as [E | (c & r & E & Hc)]; rewrite E.
  - reflexivity.
  - destruct (trimRight_head c r Hc) as [r' Hr']. rewrite Hr'.
    simpl strings.trimLeft. rewrite Hc. rewrite <- Hr'. apply trimRight_idem.
Qed.

Lemma splitCSV_trimmed s :
  Forall (fun p => trimmed p /\ ~ occurs "," p) (splitCSV s).
Proof.
  unfold splitCSV. destruct (String.eqb s ""); [constructor|].
  apply Forall_map. eapply Forall_impl; [|apply Split_no_separator].
  intros p Hp. split; [apply TrimSpace_idem|].
  intro H. apply Hp. now apply occurs_TrimSpace.
Qed.

(** X14.  [splitCSV] of a non-empty string has one part more than the
    string has commas; no part contains a comma and no part has white
    space at either end.  The empty string has no parts. *)
Theorem splitCSV_parts (s : string) :
  (s = "" -> splitCSV s = [])
  /\ (s <> "" -> List.length (splitCSV s) = S (count "," s))
  /\ Forall (fun p => trimmed p /\ ~ occurs "," p) (splitCSV s).
Proof.
  unfold splitCSV. repeat split.
  - intros ->. reflexivity.
  - intro H. rewrite (eqb_nonempty _ H), length_map. apply Split_length.
  - fold (splitCSV s). apply splitCSV_trimmed.
Qed.

Lemma splitCSV_parts_witness :
  List.length (splitCSV "alpha, beta,,gamma ") = 4%nat
  /\ splitCSV "alpha, beta,,gamma " = ["alpha"; "beta"; ""; "gamma"].
Proof.
  split; [|vm_compute; reflexivity].
  destruct (splitCSV_parts "alpha, beta,,gamma ") as (_ & H & _).
  apply H. intro E. discriminate E.
Defined.

(** The loop of [parseNamesWithOptions] over the parts after the
    first. *)
Lemma parse_loop ps :
  forall al om,
    fold_left (fun (acc : list string * bool) (p : string) =>
                 if String.eqb (strings.TrimSpace p) "omitempty"
                 then (fst acc, true)
                 else ((fst acc ++ [strings.TrimSpace p])%list, snd acc))
              ps (al, om)
    = ((al ++ filter (fun p => negb (String.eqb p "omitempty"))
                     (map strings.TrimSpace ps))%list,
       om || existsb (fun p => String.eqb p "omitempty")
                     (map strings.TrimSpace ps)).
Proof.
  induction ps as [|p ps IH]; intros al om; simpl.
  - now rewrite app_nil_r, orb_false_r.
  - destruct (String.eqb (strings.TrimSpace p) "omitempty"); simpl; rewrite IH; simpl.
    + now rewrite orb_true_r.
    + now rewrite <- app_assoc.
Qed.

(** X15.  What [parseNamesWithOptions] makes of a tag: without a name
    (an empty tag, or one whose first part is empty, as in
    [,omitempty]) there are no aliases and no omit-empty mark; with a
    name, the aliases are the later parts other than [omitempty], in
    order, and the mark is set exactly when [omitempty] is among them.
    [omitempty] is never an alias. *)
Theorem parseNamesWithOptions_parts (tag name : string)
        (aliases : list string) (omitEmpty : bool) :
  parseNamesWithOptions tag = (name, aliases, omitEmpty) ->
  let parts := splitCSV (strings.TrimSpace tag) in
  ~ In "omitempty" aliases
  /\ (name = "" -> aliases = [] /\ omitEmpty = false)
  /\ (name <> "" ->
      name = hd "" parts
      /\ aliases = filter (fun p => negb (String.eqb p "omitempty")) (tl parts)
      /\ omitEmpty = existsb (fun p => String.eqb p "omitempty") (tl parts)).
Proof.
  assert (Hnone : forall n : string,
             ~ In "omitempty" (@nil string)
             /\ ("" = "" -> @nil string = [] /\ false = false)
             /\ ("" <> "" ->
                 "" = n
                 /\ [] = filter (fun p => negb (String.eqb p "omitempty"))
                                (tl (splitCSV (strings.TrimSpace tag)))
                 /\ false = existsb (fun p => String.eqb p "omitempty")
                                    (tl (splitCSV (strings.TrimSpace tag))))).
  { intro n. split; [intros [] | split; [auto | intro H; now contradiction H]]. }
  unfold parseNamesWithOptions. cbv zeta.
  destruct (String.eqb (strings.TrimSpace tag) "") eqn:E0.
  - intro H. inversion H; subst. apply Hnone.
  - pose proof (splitCSV_trimmed (strings.TrimSpace tag)) as Hall.
    destruct (splitCSV (strings.TrimSpace tag)) as [|p0 ps] eqn:Eparts.
    + intro H. inversion H; subst. split; [intros [] | split; [auto | intro C; now contradiction C]].
    + destruct (String.eqb p0 "") eqn:Ep.
      * intro H. inversion H; subst.
        split; [intros [] | split; [auto | intro C; now contradiction C]].
      * rewrite parse_loop. cbn [fst snd app orb hd tl].
        assert (Hps : map strings.TrimSpace ps = ps).
        { inversion Hall as [|? ? _ Hps]; subst.
          clear -Hps. induction Hps as [|p ps [Hp _] _ IH]; simpl; [reflexivity|].
          unfold trimmed in Hp. now rewrite Hp, IH. }
        rewrite Hps. intro H. inversion H; subst. split; [|split].
        -- intro C. apply filter_In in C. destruct C as [_ C].
           now rewrite String.eqb_refl in C.
        -- intros ->. discriminate Ep.
        -- intros _. repeat split.
Qed.

Lemma parseNamesWithOptions_parts_witness :
  parseNamesWithOptions " name, n ,omitempty, long" = ("name", ["n"; "long"], true)
  /\ parseNamesWithOptions ",omitempty" = ("", [], false).
Proof.
  split; [|vm_compute; reflexivity].
  destruct (parseNamesWithOptions " name, n ,omitempty, long")
    as [[name aliases] omitEmpty] eqn:E.
  destruct (parseNamesWithOptions_parts _ _ _ _ E) as (_ & _ & H).
  assert (Hn : name = "name") by (vm_compute in E; now inversion E).
  destruct H as (H1 & H2 & H3); [rewrite Hn; intro C; discriminate C|].
  rewrite H1, H2, H3. vm_compute. reflexivity.
Defined.

(** ** Empty strings and integer sequences *)

(** X16.  For a field of type duration, timestamp or identifier whose
    flag holds the empty string, [setFieldValue] stores the zero value of
    the type and returns no error, without consulting the parser. *)
Theorem empty_string_gives_zero (P : Parsers) (ctx : cli.Command)
        (name : string) (sf : StructField) :
  Typ sf = Duration \/ Typ sf = Time \/ Typ sf = UUID ->
  cli.String ctx name = "" ->
  setFieldValue P ctx name sf (NewElem (Typ sf))
  = Ok (mkValue (Typ sf) (zero (Typ sf))).
Proof.
  intros [Ht | [Ht | Ht]] Hs; unfold setFieldValue; rewrite Ht; simpl;
    rewrite Hs; reflexivity.
Qed.

Lemma empty_string_gives_zero_witness :
  setFieldValue someParsers (cli.parsed []) "when"
    (field "When" Time [("cli", "when")]) (NewElem Time)
  = Ok (mkValue Time (VTime 0)).
Proof.
  apply (empty_string_gives_zero someParsers (cli.parsed []) "when"
           (field "When" Time [("cli", "when")])).
  - right. left. reflexivity.
  - reflexivity.
Defined.

Lemma sliceLoop_ints P sf k raw :
  isAnyInt k = true ->
  Forall (fun s => snd (strconv.ParseInt s) = None) raw ->
  forall out,
    sliceLoop P sf (Plain k) raw out
    = Ok (out ++ map (fun s => VInt (wrapSigned (bits k) (fst (strconv.ParseInt s))))
                     raw)%list.
Proof.
  intros Hk Hall. induction Hall as [|s raw Hs _ IH]; intro out.
  - simpl. now rewrite app_nil_r.
  - cbn [sliceLoop map].
    assert (E : sliceElem P sf (Plain k) s
                = Ok (Some (mkValue (Plain k)
                              (VInt (wrapSigned (bits k) (fst (strconv.ParseInt s))))))).
    { unfold sliceElem. destruct (strconv.ParseInt s) as [n o]. simpl in Hs. subst o.
      destruct k; try discriminate Hk; reflexivity. }
    rewrite E. cbn [bind val]. rewrite IH. now rewrite <- app_assoc.
Qed.

(** X17.  For a field of type sequence of a signed integer type whose
    repeated flag holds at least one string, all of them decimal
    integers that [strconv.ParseInt] accepts, [setFieldValue] stores one
    element for each string, in order: the parsed number, cut to the
    width of the element type. *)
Theorem integer_sequence_is_parsed_in_order (P : Parsers) (ctx : cli.Command)
        (name : string) (sf : StructField) (k : Kind) :
  Typ sf = SliceOf (Plain k) ->
  isAnyInt k = true ->
  cli.StringSlice ctx name <> [] ->
  Forall (fun s => snd (strconv.ParseInt s) = None) (cli.StringSlice ctx name) ->
  setFieldValue P ctx name sf (NewElem (Typ sf))
  = Ok (mkValue (Typ sf)
          (VSlice (Some (map (fun s => VInt (wrapSigned (bits k)
                                               (fst (strconv.ParseInt s))))
                             (cli.StringSlice ctx name))))).
Proof.
  intros Ht Hk Hne Hall.
  rewrite (setFieldValue_SliceOf _ _ _ _ _ _ Ht). unfold setSliceField.
  destruct (cli.StringSlice ctx name) as [|s raw] eqn:E; [now contradiction Hne|].
  rewrite Ht. cbn [Elem bind]. rewrite (sliceLoop_ints _ _ _ _ Hk Hall).
  cbn [bind app]. unfold SetValue. cbn [typ val NewElem].
  rewrite (rtype_eqb_refl (SliceOf (Plain k))). reflexivity.
Qed.

Lemma integer_sequence_is_parsed_in_order_witness :
  let sf := field "Ports" (SliceOf (Plain Int8)) [("cli", "ports")] in
  let ctx := cli.parsed [(cli.mkFlag "ports" [] "" (cli.StringSliceValue []) "" true,
                          Some (cli.StringSliceValue ["80"; "-1"; "300"]))] in
  setFieldValue someParsers ctx "ports" sf (NewElem (SliceOf (Plain Int8)))
  = Ok (mkValue (SliceOf (Plain Int8)) (VSlice (Some [VInt 80; VInt (-1); VInt 44]))).
Proof.
  intros sf ctx.
  change (NewElem (SliceOf (Plain Int8))) with (NewElem (Typ sf)).
  rewrite (integer_sequence_is_parsed_in_order someParsers ctx "ports" sf Int8).
  - vm_compute. reflexivity.
  - reflexivity.
  - reflexivity.
  - vm_compute. intro H. discriminate H.
  - change (cli.StringSlice ctx "ports") with ["80"; "-1"; "300"].
    repeat (constructor; [vm_compute; reflexivity|]). constructor.
Defined.

(** ** Pointers to types *)

(** X18.  [unreferenceType] is idempotent, its result is never a
    pointer type, and a type is struct-like exactly when the type behind
    its pointers is a struct other than [time.Time]; [bindStruct] on a
    type does what it does on the type behind its pointers. *)
Theorem unreferenceType_strips_pointers (P : Parsers) (ctx : cli.Command)
        (t : rtype) (prefix : string) :
  unreferenceType (unreferenceType t) = unreferenceType t
  /\ kind (unreferenceType t) <> Pointer
  /\ (isStructLike t = true <-> exists fs, unreferenceType t = StructOf fs)
  /\ isStructLike (PointerTo t) = isStructLike t
  /\ bindStruct P ctx t prefix = bindStruct P ctx (unreferenceType t) prefix.
Proof.
  repeat split.
  - induction t; simpl; auto.
  - induction t as [k| | | |e IH|e IH|fs]; simpl; try discriminate; auto.
    destruct k; discriminate.
  - apply isStructLike_inv.
  - intros [fs H]. unfold isStructLike. now rewrite H.
  - apply bindStruct_unreferenceType.
Qed.

(** ** Required flags and defaults, field by field *)

Lemma genField_leaf P rec prefix sf out :
  exported sf = true -> isStructLike (Typ sf) = false ->
  genField P rec prefix sf out
  = match leafFlag P prefix sf with
    | Some f => Ok (out ++ [f])%list
    | None => Ok out
    end.
Proof.
  unfold genField, exported. intros -> ->. simpl.
  destruct (parseNamesWithOptions (Get (Tag sf) tagCLI)) as [[nm al] om].
  now rewrite !andb_false_r.
Qed.

Lemma leafFlag_hasFlagKind P prefix sf :
  hasFlagKind (Typ sf) = true -> exists f, leafFlag P prefix sf = Some f.
Proof.
  unfold hasFlagKind, leafFlag.
  destruct (parseNamesWithOptions (Get (Tag sf) tagCLI)) as [[nm al] om].
  cbv zeta. set (k := kind (unreferenceType (Typ sf))).
  destruct (rtype_eqb (Typ sf) Duration); [eauto|].
  destruct (Kind_eqb k Bool); [eauto|].
  destruct (isAnyInt k); [eauto|].
  destruct (isAnyUint k); [eauto|].
  destruct (Kind_eqb k Float32); [simpl; eauto|].
  destruct (Kind_eqb k Float64); [simpl; eauto|].
  destruct (rtype_eqb (Typ sf) Time); [simpl; eauto|].
  destruct (rtype_eqb (Typ sf) UUID); [simpl; eauto|].
  destruct (Kind_eqb k String); [simpl; eauto|].
  destruct (Kind_eqb k Slice); [simpl; eauto|].
  simpl. discriminate.
Qed.






(** ** Defaults, with the errors of [strconv] *)






(** ** Replacing the destination *)

Lemma boundName_snd prefix sf : snd (boundName prefix sf) = omitEmptyOf sf.
Proof.
  unfold boundName, omitEmptyOf.
  destruct (parseNamesWithOptions (Get (Tag sf) tagCLI)) as [[nm al] om].
  reflexivity.
Qed.

(** An iteration that does not set [defined] passed the field over. *)
Lemma unassigned_skips P ctx prefix sf v :
  bindField P ctx (bindStruct P ctx) prefix sf = Ok (v, false) ->
  skips P ctx prefix sf.
Proof.
  unfold bindField.
  destruct (String.eqb (PkgPath sf) "") eqn:He; cbn [negb];
    [|intros _; now apply skips_unexported].
  assert (Hx : exported sf = true) by exact He.
  pose proof (boundName_snd prefix sf) as Hom.
  destruct (boundName prefix sf) as [name om] eqn:Hnm.
  cbn [snd] in Hom.
  apply (f_equal fst) in Hnm. cbn [fst] in Hnm.
  destruct (isStructLike (Typ sf)) eqn:Hs.
  - assert (Hnone : forall pfx, nestedPrefix prefix sf = pfx ->
              (subv <- wrapping ("bind substruct " ++ Name sf ++ ": ")
                         (bindStruct P ctx (Typ sf) pfx) ;;
               match subv with
               | Some subv0 => fv <- SetValue (NewElem (Typ sf)) subv0 ;; Ok (val fv, true)
               | None => Ok (val (NewElem (Typ sf)), false)
               end) = Ok (v, false) -> skips P ctx prefix sf).
    { intros pfx Hp.
      destruct (bindStruct P ctx (Typ sf) pfx) as [[subv|]| |] eqn:Hsub;
        simpl; try discriminate.
      - destruct (SetValue (NewElem (Typ sf)) subv); simpl; discriminate.
      - intros _. apply skips_nested; auto. now rewrite Hp. }
    unfold nestedPrefix in Hnone.
    destruct (negb (Anonymous sf)); cbn [bind].
    + apply Hnone. reflexivity.
    + destruct (negb (String.eqb (Get (Tag sf) tagCLI) "")); cbn [bind];
        [discriminate|]. apply Hnone. reflexivity.
  - destruct (negb (cli.IsSet ctx name)) eqn:Hset; cbn [andb].
    + destruct om.
      * intros _. apply skips_omitempty; auto.
        rewrite Hnm. now apply negb_true_iff.
      * destruct (wrapping ("set field " ++ Name sf ++ " value: ")
                    (setFieldValue P ctx name sf (unreferenceValue (NewElem (Typ sf)))));
          simpl; discriminate.
    + destruct (wrapping ("set field " ++ Name sf ++ " value: ")
                  (setFieldValue P ctx name sf (unreferenceValue (NewElem (Typ sf)))));
        simpl; discriminate.
Qed.

Lemma all_skipped P ctx prefix fs rs :
  Forall2 (fun sf r => bindField P ctx (bindStruct P ctx) prefix sf = Ok r) fs rs ->
  (existsb snd rs = false <-> Forall (skips P ctx prefix) fs).
Proof.
  induction 1 as [|sf r fs rs Hr _ IH]; simpl.
  - split; [constructor | reflexivity].
  - rewrite orb_false_iff, IH. split.
    + intros [Hs Hall]. constructor; [|exact Hall].
      destruct r as [v a]. simpl in Hs. subst a.
      exact (unassigned_skips _ _ _ _ _ Hr).
    + intro Hall. inversion Hall as [|? ? Hs Hrest]; subst.
      split; [|exact Hrest].
      now rewrite (skips_unassigned _ _ _ _ _ Hs Hr).
Qed.

(** C9, as the code has it.  When [Bind] succeeds on the address of a
    struct, every iteration [r] of the loop returned; it did not set
    [defined] exactly when the field was passed over (unexported, unset
    and omit-empty, or a struct in which nothing was assigned), and then
    the field is at its zero value in the value built.  If every field
    was passed over the destination is as it was; otherwise it holds the
    value built, whatever it held, and so also when the iterations that
    ran stored nothing. *)
Theorem Bind_replaces_unless_all_skipped (P : Parsers) (ctx : cli.Command)
        (fs : list StructField) (old : data) (d' : option Value) :
  Bind P ctx (addressOf (StructOf fs) old) = (d', Ok tt) ->
  exists rs,
    Forall2 (fun sf r =>
               bindField P ctx (bindStruct P ctx) "" sf = Ok r
               /\ (snd r = false <-> skips P ctx "" sf)
               /\ (snd r = false -> fst r = zero (Typ sf))) fs rs
    /\ (Forall (skips P ctx "") fs -> d' = addressOf (StructOf fs) old)
    /\ (~ Forall (skips P ctx "") fs ->
        d' = addressOf (StructOf fs) (VStruct (map fst rs))).
Proof.
  intro H. destruct (Bind_addressOf_Ok _ _ _ _ _ H) as (rs & Hall & Hd).
  pose proof (all_skipped _ _ _ _ _ Hall) as Hiff.
  exists rs. repeat split.
  - eapply Forall2_impl; [|exact Hall]. simpl. intros sf r Hr.
    split; [exact Hr|]. split; [split|].
    + intro E. destruct r as [v a]. simpl in E. subst a.
      exact (unassigned_skips _ _ _ _ _ Hr).
    + intro Hs. now rewrite (skips_unassigned _ _ _ _ _ Hs Hr).
    + intro E. destruct r as [v a]. simpl in E. subst a.
      exact (bindField_unassigned _ _ _ _ _ _ Hr).
  - intro Hs. apply Hiff in Hs. now rewrite Hs in Hd.
  - intro Hn. destruct (existsb snd rs) eqn:E; [exact Hd|].
    exfalso. apply Hn. now apply Hiff.
Qed.

Lemma Bind_replaces_unless_all_skipped_witness :
  Bind someParsers commandJob (addressOf Opt (VStruct [VString "old"; VInt 5]))
  = (addressOf Opt (VStruct [VString "x"; VInt 0]), Ok tt)
  /\ exists rs,
      Forall2 (fun sf r =>
                 bindField someParsers commandJob
                   (bindStruct someParsers commandJob) "" sf = Ok r
                 /\ (snd r = false <-> skips someParsers commandJob "" sf)
                 /\ (snd r = false -> fst r = zero (Typ sf)))
        [field "A" (Plain String) [("cli", "a")];
         field "B" (Plain Int) [("cli", "b,omitempty")]] rs
      /\ (Forall (skips someParsers commandJob "")
            [field "A" (Plain String) [("cli", "a")];
             field "B" (Plain Int) [("cli", "b,omitempty")]] ->
          addressOf Opt (VStruct [VString "x"; VInt 0])
          = addressOf Opt (VStruct [VString "old"; VInt 5]))
      /\ (~ Forall (skips someParsers commandJob "")
              [field "A" (Plain String) [("cli", "a")];
               field "B" (Plain Int) [("cli", "b,omitempty")]] ->
          addressOf Opt (VStruct [VString "x"; VInt 0])
          = addressOf Opt (VStruct (map fst rs))).
Proof.
  split; [vm_compute; reflexivity|].
  apply (Bind_replaces_unless_all_skipped someParsers commandJob
           [field "A" (Plain String) [("cli", "a")];
            field "B" (Plain Int) [("cli", "b,omitempty")]]
           (VStruct [VString "old"; VInt 5])).
  vm_compute; reflexivity.
Defined.

(** C9 as stated fails: for [Tags []string] and a command whose flag
    holds no string, [setFieldValue] returns without storing anything, so
    no field is assigned; yet the destination, which held [["keep"]], is
    replaced and its field is nil afterwards. *)
Lemma destination_replaced_though_nothing_assigned :
  let sf := field "Tags" (SliceOf (Plain String)) [("cli", "tags")] in
  setFieldValue someParsers (cli.parsed []) "tags" sf (NewElem (Typ sf))
  = Ok (NewElem (Typ sf))
  /\ Bind someParsers (cli.parsed [])
       (addressOf (StructOf [sf]) (VStruct [VSlice (Some [VString "keep"])]))
     = (addressOf (StructOf [sf]) (VStruct [VSlice None]), Ok tt)
  /\ VStruct [VSlice None] <> VStruct [VSlice (Some [VString "keep"])].
Proof.
  intro sf. split; [|split].
  - vm_compute. reflexivity.
  - vm_compute. reflexivity.
  - intro H. discriminate H.
Qed.

(** ** Unexported fields, in the destination *)

Lemma bindFields_none_exported P ctx prefix fs :
  forallb (fun sf => negb (exported sf)) fs = true ->
  forall d, bindFields P ctx prefix fs d
            = Ok (map (fun sf => zero (Typ sf)) fs, d).
Proof.
  induction fs as [|sf rest IH]; simpl; intros H d; [reflexivity|].
  apply andb_true_iff in H. destruct H as [Hu Hrest].
  unfold bindField at 1. unfold exported in Hu. rewrite Hu. cbn [bind fst snd].
  rewrite (IH Hrest). cbn [bind fst snd NewElem val]. now rewrite orb_false_r.
Qed.

Lemma bindStruct_unexported_zero P ctx fs prefix v :
  bindStruct P ctx (StructOf fs) prefix = Ok (Some v) ->
  exists vs,
    val v = VStruct vs /\ List.length vs = List.length fs
    /\ forall i sf,
        nth_error fs i = Some sf -> exported sf = false ->
        nth_error vs i = Some (zero (Typ sf)).
Proof.
  intro H. rewrite bindStruct_StructOf in H.
  destruct (bindFields P ctx prefix fs false) as [[vs d]| |] eqn:Hfs;
    simpl in H; try discriminate.
  destruct d; inversion H; subst; clear H.
  destruct (bindFields_Ok_inv _ _ _ _ _ _ _ Hfs) as (rs & Hall & Hvs & _).
  exists vs. repeat split.
  - subst vs. rewrite length_map. symmetry. eapply Forall2_length; eauto.
  - intros i sf Hi Hu.
    destruct (Forall2_at _ _ _ Hall i sf Hi) as (r & Hr & Hb).
    pose proof (skips_unassigned P ctx prefix sf r
                  (skips_unexported _ _ _ _ Hu) Hb) as ->.
    subst vs. now rewrite nth_error_map, Hr.
Qed.

(** C10, as the code has it.  For every struct type, generation gives
    the same flags when the unexported fields are removed from the type,
    so it emits none for them, and no flag is read into an unexported
    field: in the value [bindStruct] builds each of them is at its zero
    value, whatever its tag.  [Bind] does not keep what the destination
    held in them: when it succeeds the destination is either as it was,
    and it is so for a struct with unexported fields only, or it holds
    the value built, with every unexported field reset to zero. *)
Theorem unexported_fields_get_no_flag_and_no_value
        (P : Parsers) (ctx : cli.Command) (fs : list StructField)
        (prefix : string) :
  (forall out,
      genFlagsForStruct P (StructOf fs) prefix out
      = genFlagsForStruct P (StructOf (filter exported fs)) prefix out)
  /\ (forall v,
         bindStruct P ctx (StructOf fs) prefix = Ok (Some v) ->
         exists vs,
           val v = VStruct vs /\ List.length vs = List.length fs
           /\ forall i sf,
               nth_error fs i = Some sf -> exported sf = false ->
               nth_error vs i = Some (zero (Typ sf)))
  /\ (forallb (fun sf => negb (exported sf)) fs = true ->
      bindStruct P ctx (StructOf fs) prefix = Ok None
      /\ forall old,
          Bind P ctx (addressOf (StructOf fs) old)
          = (addressOf (StructOf fs) old, Ok tt))
  /\ (forall old d',
         Bind P ctx (addressOf (StructOf fs) old) = (d', Ok tt) ->
         d' = addressOf (StructOf fs) old
         \/ exists vs,
             d' = addressOf (StructOf fs) (VStruct vs)
             /\ List.length vs = List.length fs
             /\ forall i sf,
                 nth_error fs i = Some sf -> exported sf = false ->
                 nth_error vs i = Some (zero (Typ sf))).
Proof.
  split; [|split; [|split]].
  - intro out. rewrite !genFlagsForStruct_StructOf. apply genFields_filter_exported.
  - intro v. apply bindStruct_unexported_zero.
  - intro Hu.
    assert (E : forall pfx, bindStruct P ctx (StructOf fs) pfx = Ok None).
    { intro pfx. rewrite bindStruct_StructOf.
      now rewrite (bindFields_none_exported _ _ _ _ Hu false). }
    split; [apply E|]. intro old. now rewrite Bind_addressOf, E.
  - intros old d'. rewrite Bind_addressOf.
    destruct (bindStruct P ctx (StructOf fs) "") as [[v|]| |] eqn:Hb;
      try (intro H; discriminate H).
    + destruct (rtype_eqb (typ v) (StructOf fs)); intro H; [|discriminate H].
      inversion H; subst. right.
      destruct (bindStruct_unexported_zero _ _ _ _ _ Hb) as (vs & Hv & Hlen & Hz).
      exists vs. rewrite Hv. auto.
    + intro H. inversion H. now left.
Qed.

Lemma unexported_fields_get_no_flag_and_no_value_witness :
  Bind someParsers commandJob (addressOf Hidden (VStruct [VString "s3cr3t"; VString "old"]))
  = (addressOf Hidden (VStruct [VString ""; VString "x"]), Ok tt)
  /\ (addressOf Hidden (VStruct [VString ""; VString "x"])
      = addressOf Hidden (VStruct [VString "s3cr3t"; VString "old"])
      \/ exists vs,
          addressOf Hidden (VStruct [VString ""; VString "x"])
          = addressOf Hidden (VStruct vs)
          /\ List.length vs = 2%nat
          /\ forall i sf,
              nth_error [mkStructField "secret" "main" (Plain String) [("cli", "a")] false;
                         field "A" (Plain String) [("cli", "a")]] i = Some sf ->
              exported sf = false ->
              nth_error vs i = Some (zero (Typ sf))).
Proof.
  split; [vm_compute; reflexivity|].
  destruct (unexported_fields_get_no_flag_and_no_value someParsers commandJob
              [mkStructField "secret" "main" (Plain String) [("cli", "a")] false;
               field "A" (Plain String) [("cli", "a")]] "") as (_ & _ & _ & H).
  apply (H (VStruct [VString "s3cr3t"; VString "old"])).
  vm_compute; reflexivity.
Defined.

(** C10 as stated fails: [Bind] does write to an unexported field.  The
    destination held ["s3cr3t"] in its unexported field; after [--a x]
    the field is empty, because the whole struct is replaced by the value
    built, in which unexported fields are zero. *)
Lemma Bind_resets_unexported_field :
  Bind someParsers commandJob
    (addressOf Hidden (VStruct [VString "s3cr3t"; VString "old"]))
  = (addressOf Hidden (VStruct [VString ""; VString "x"]), Ok tt)
  /\ VString "" <> VString "s3cr3t".
Proof.
  split; [vm_compute; reflexivity | intro H; discriminate H].
Qed.

(** ** Names, in the generator and in the binder *)

Lemma genFields_total P prefix fs :
  exists new, forall out, genFields P prefix fs out = Ok (out ++ new)%list.
Proof.
  destruct (genFlagsForStruct_appends P (StructOf fs) fs eq_refl prefix)
    as (new & H & _).
  exists new. intro out. rewrite <- genFlagsForStruct_StructOf. apply H.
Qed.

Lemma genFields_app P prefix l1 l2 :
  forall out,
    genFields P prefix (l1 ++ l2)%list out
    = (o <- genFields P prefix l1 out ;; genFields P prefix l2 o).
Proof.
  induction l1 as [|sf rest IH]; intro out; simpl; [reflexivity|].
  destruct (genField P (genFlagsForStruct P) prefix sf out); simpl; auto.
Qed.

Lemma genFields_In P prefix pre sf post f :
  (forall out, exists flags,
      genField P (genFlagsForStruct P) prefix sf out = Ok flags /\ In f flags) ->
  forall out, exists flags,
    genFields P prefix (pre ++ sf :: post)%list out = Ok flags /\ In f flags.
Proof.
  intros H out. rewrite genFields_app.
  destruct (genFields_total P prefix pre) as [n1 H1]. rewrite H1. cbn [bind].
  cbn [genFields].
  destruct (H (out ++ n1)%list) as (fl & Hfl & Hin). rewrite Hfl. cbn [bind].
  destruct (genFields_total P prefix post) as [n2 H2]. rewrite H2.
  eexists. split; [reflexivity|]. apply in_or_app. now left.
Qed.

(** Where [samePrefix] holds the generator recurses as the binder does. *)
Lemma genField_descends P prefix sf gs out :
  exported sf = true -> unreferenceType (Typ sf) = StructOf gs ->
  samePrefix sf = true ->
  (Anonymous sf = true -> Get (Tag sf) tagCLI = "") ->
  genField P (genFlagsForStruct P) prefix sf out
  = genFlagsForStruct P (StructOf gs) (nestedPrefix prefix sf) out.
Proof.
  unfold genField, exported, samePrefix, nestedPrefix.
  intros -> Hgs Hs Ha. rewrite (isStructLike_StructOf _ _ Hgs), Hgs.
  cbn [negb andb]. destruct (Anonymous sf).
  - rewrite Hs, (Ha eq_refl). reflexivity.
  - rewrite Hs. reflexivity.
Qed.

(** The fields Bind meets in the sense of [located] are walked to. *)
Lemma located_walks P ctx sf0 prefix fs path name :
  located P ctx sf0 prefix fs path name ->
  exists through, walks sf0 prefix fs through name /\ map Name through = path.
Proof.
  induction 1 as [prefix pre post r He Hpre
                 | prefix pre sf post r gs path name He Hpre Hgs Hanon _ IH].
  - exists []. split; [now constructor | reflexivity].
  - destruct IH as (through & Hw & Hm). exists (sf :: through). split.
    + econstructor; eauto.
    + simpl. now rewrite Hm.
Qed.

(** X1.  The generator and the binder agree on the name of a field
    wherever they descend with the same prefix: let [bindStruct] walk
    from the fields [fs] to the exported field [sf], whose type has a
    case in the generator, through struct fields that are named and
    carry a [cliPrefix] tag or are embedded and carry none.  Then the
    flags generated for [fs] contain one whose name is the name
    [bindStruct] looks [sf] up under. *)
Theorem generator_emits_the_name_the_binder_reads (P : Parsers)
        (prefix : string) (fs through : list StructField)
        (sf : StructField) (name : string) :
  walks sf prefix fs through name ->
  forallb samePrefix through = true ->
  hasFlagKind (Typ sf) = true ->
  exists f,
    cli.Name f = name
    /\ forall out, exists flags,
        genFlagsForStruct P (StructOf fs) prefix out = Ok flags /\ In f flags.
Proof.
  intros Hw Hsame Hk.
  induction Hw as [prefix pre post He
                  | prefix pre sf1 post gs through name He Hgs Hanon _ IH].
  - destruct (leafFlag_hasFlagKind P prefix sf Hk) as [f Hf].
    exists f. split; [exact (proj1 (leafFlag_Name _ _ _ _ Hf))|].
    intro out. rewrite genFlagsForStruct_StructOf. apply genFields_In.
    intro out'.
    rewrite (genField_leaf _ _ _ _ _ He (leafFlag_leaf _ _ _ _ Hf)), Hf.
    eexists. split; [reflexivity|]. apply in_or_app. right. now left.
  - cbn [forallb] in Hsame. apply andb_true_iff in Hsame.
    destruct Hsame as [Hs Hrest].
    destruct (IH Hrest) as (f & Hn & Hgen).
    exists f. split; [exact Hn|].
    intro out. rewrite genFlagsForStruct_StructOf. apply genFields_In.
    intro out'. rewrite (genField_descends _ _ _ _ _ He Hgs Hs Hanon).
    apply Hgen.
Qed.

Lemma generator_emits_the_name_the_binder_reads_witness :
  exists f,
    cli.Name f = "sub.d"
    /\ forall out, exists flags,
        genFlagsForStruct someParsers (StructOf Nested) "" out = Ok flags
        /\ In f flags.
Proof.
  apply (generator_emits_the_name_the_binder_reads someParsers "" Nested
           [field "Sub" (PointerTo (StructOf Inner)) [("cliPrefix", "sub.")]]
           (field "D" (PointerTo Duration) [("cli", "d")]) "sub.d").
  - apply (walks_under _ ""
             [field "A" (Plain String) [("cli", "a")]]
             (field "Sub" (PointerTo (StructOf Inner)) [("cliPrefix", "sub.")])
             [] Inner [] "sub.d").
    + reflexivity.
    + reflexivity.
    + intro H. discriminate H.
    + exact (walks_here (field "D" (PointerTo Duration) [("cli", "d")]) "sub." []
               [field "M" (SliceOf (SliceOf (Plain String))) [("cli", "m")]]
               eq_refl).
  - reflexivity.
  - reflexivity.
Defined.

(** Where they do not descend with the same prefix the names differ: for
    an embedded struct with [cliPrefix:"db."] the flag is [db.host], the
    binder looks [host] up, and [--db.host h] is not read. *)
Lemma embedded_prefix_is_generated_but_not_read :
  genFlagsForStruct someParsers (StructOf Service) "" []
  = Ok [cli.mkFlag "db.host" [] "" (cli.StringValue "") "" true]
  /\ walks (field "Host" (Plain String) [("cli", "host")]) "" Service
       [mkStructField "Conn" "" (StructOf Conn) [("cliPrefix", "db.")] true]
       "host"
  /\ Bind someParsers commandService
       (addressOf (StructOf Service) (VStruct [VStruct [VString "old"]]))
     = (addressOf (StructOf Service) (VStruct [VStruct [VString ""]]), Ok tt).
Proof.
  split; [vm_compute; reflexivity|]. split.
  - apply (walks_under _ "" []
             (mkStructField "Conn" "" (StructOf Conn) [("cliPrefix", "db.")] true)
             [] Conn [] "host").
    + reflexivity.
    + reflexivity.
    + intros _. reflexivity.
    + exact (walks_here (field "Host" (Plain String) [("cli", "host")]) "" [] []
               eq_refl).
  - vm_compute. reflexivity.
Qed.

(** ** Integer stores *)

Lemma unreferenceValue_NewElem (t : rtype) :
  unreferenceValue (NewElem t)
  = NewElem (match t with PointerTo e => e | _ => t end).
Proof. destruct t; reflexivity. Qed.

Lemma castAndSet_NewElem (t : rtype) (v : Z) :
  (exists fld',
      castAndSetInt (NewElem t) v = Ok fld' /\ typ fld' = t)
  /\ (exists fld',
         castAndSetUint (NewElem t) v = Ok fld' /\ typ fld' = t)
  /\ (isAnyInt (kind t) = true ->
      castAndSetInt (NewElem t) v
      = Ok (mkValue t (VInt (wrapSigned (bits (kind t)) v))))
  /\ (isAnyUint (kind t) = true ->
      castAndSetUint (NewElem t) v
      = Ok (mkValue t (VUint (wrapUnsigned (bits (kind t)) v))))
  /\ (isAnyInt (kind t) = false -> castAndSetInt (NewElem t) v = Ok (NewElem t))
  /\ (isAnyUint (kind t) = false -> castAndSetUint (NewElem t) v = Ok (NewElem t)).
Proof.
  destruct t as [k| | | |e|e|fs]; [destruct k|..];
    repeat split;
    try (eexists; split; reflexivity);
    try reflexivity; try (intro H; discriminate H).
Qed.

(** X5.  On the value [bindStruct] hands to [setFieldValue] for a field
    of type [t], the settable field of a freshly allocated struct with
    its pointer followed by [unreferenceValue], [castAndSetInt] and
    [castAndSetUint] never panic and keep the type of the value.  They
    store the number, wrapped to the width of the kind, when the value
    is an integer of their signedness, and leave the value as it is
    otherwise. *)
Theorem castAndSet_on_a_fresh_field (t : rtype) (v : Z) :
  (exists fld',
      castAndSetInt (unreferenceValue (NewElem t)) v = Ok fld'
      /\ typ fld' = typ (unreferenceValue (NewElem t)))
  /\ (exists fld',
         castAndSetUint (unreferenceValue (NewElem t)) v = Ok fld'
         /\ typ fld' = typ (unreferenceValue (NewElem t)))
  /\ (isAnyInt (kind (typ (unreferenceValue (NewElem t)))) = true ->
      castAndSetInt (unreferenceValue (NewElem t)) v
      = Ok (mkValue (typ (unreferenceValue (NewElem t)))
              (VInt (wrapSigned
                       (bits (kind (typ (unreferenceValue (NewElem t))))) v))))
  /\ (isAnyUint (kind (typ (unreferenceValue (NewElem t)))) = true ->
      castAndSetUint (unreferenceValue (NewElem t)) v
      = Ok (mkValue (typ (unreferenceValue (NewElem t)))
              (VUint (wrapUnsigned
                        (bits (kind (typ (unreferenceValue (NewElem t))))) v))))
  /\ (isAnyInt (kind (typ (unreferenceValue (NewElem t)))) = false ->
      castAndSetInt (unreferenceValue (NewElem t)) v
      = Ok (unreferenceValue (NewElem t)))
  /\ (isAnyUint (kind (typ (unreferenceValue (NewElem t)))) = false ->
      castAndSetUint (unreferenceValue (NewElem t)) v
      = Ok (unreferenceValue (NewElem t))).
Proof.
  rewrite unreferenceValue_NewElem.
  exact (castAndSet_NewElem (match t with PointerTo e => e | _ => t end) v).
Qed.

Lemma castAndSet_on_a_fresh_field_witness :
  castAndSetInt (unreferenceValue (NewElem (PointerTo (Plain Int8)))) 200
  = Ok (mkValue (Plain Int8) (VInt (-56)))
  /\ castAndSetUint (unreferenceValue (NewElem (PointerTo (Plain Int8)))) 200
     = Ok (NewElem (Plain Int8)).
Proof.
  destruct (castAndSet_on_a_fresh_field (PointerTo (Plain Int8)) 200)
    as (_ & _ & Hi & _ & _ & Hu).
  split; [apply Hi | apply Hu]; reflexivity.
Defined.
